(** * zpickle: the compressed container and its one-shot and streaming codecs

    A shallow embedding of [zpickle/core.py] (functions [dumps], [loads],
    [dump], [load], [dump_streaming], [load_streaming]).

    The collaborators of [core.py] are kept abstract:
    - the [pickle] module (an opaque serializer / deserializer),
    - the [compress_utils] package (one-shot [compress] / [decompress] and
      the incremental [CompressStream] / [DecompressStream] objects),
    - the constants of [zpickle/format.py] (magic marker, algorithm table).

    Python effects are made explicit: exceptions are a [result], the file
    objects, the configuration store and the emitted warnings live in a
    [world] that is threaded through every call, and the [while True] loops
    run on a fuel that the callers compute from the size of the buffer. *)

From Stdlib Require Import String List ZArith Bool Lia.
Import ListNotations.
Local Open Scope string_scope.
Local Open Scope list_scope.
Local Open Scope Z_scope.

(** ** Python values, exceptions and results *)

(** A [bytes] object: a sequence of octets, each an integer in [0, 256). *)
Definition bytes : Type := list Z.

Inductive exn : Type :=
| TypeError (msg : string)
| ValueError (msg : string)
| EOFError (msg : string)
| UnpicklingError (msg : string)
| CompressionError (msg : string).

(** [str(e)] *)
Definition exn_str (e : exn) : string :=
  match e with
  | TypeError m | ValueError m | EOFError m
  | UnpicklingError m | CompressionError m => m
  end.

Inductive result (A : Type) : Type :=
| Ok (a : A)
| Raise (e : exn).
Arguments Ok {A} a.
Arguments Raise {A} e.

Inductive warning : Type :=
| RuntimeWarning (message : string).

(** The argument of [loads] before its [isinstance] test: a [bytes], a
    [bytearray], or an object of another type (only its type name matters). *)
Inductive pyval : Type :=
| PyBytes (b : bytes)
| PyByteArray (b : bytes)
| PyOther (type_name : string).

(** [not chunk] on a bytes object. *)
Definition is_empty (b : bytes) : bool :=
  match b with [] => true | _ :: _ => false end.

(** [a or d] on an [Optional[str]]: [None] and the empty string are falsy. *)
Definition or_str (a : option string) (d : string) : string :=
  match a with
  | Some s => if String.eqb s "" then d else s
  | None => d
  end.

(** [l or d] on an [Optional[int]]: [None] and [0] are falsy. *)
Definition or_int (l : option Z) (d : Z) : Z :=
  match l with
  | Some z => if z =? 0 then d else z
  | None => d
  end.

(** [io.BytesIO.read(n)] on the unread part of a buffer: the chunk returned
    and what stays unread.  A negative size reads to the end. *)
Definition read_bytes (n : Z) (buf : bytes) : bytes * bytes :=
  if n <? 0 then (buf, [])
  else (firstn (Z.to_nat n) buf, skipn (Z.to_nat n) buf).

(** ** The collaborators *)

Record dump_opts : Type := mkDumpOpts {
  protocol : option Z;
  dump_fix_imports : bool;
  buffer_callback : option nat
}.

Record load_opts : Type := mkLoadOpts {
  load_fix_imports : bool;
  encoding : string;
  errors : string;
  buffers : option nat
}.

(** [pickle.dumps] / [pickle.loads]; [pickle.dump] into a [BytesIO] leaves
    in it the bytes that [pickle.dumps] returns. *)
Record PickleService : Type := mkPickle {
  Obj : Type;
  pickle_dumps : Obj -> dump_opts -> result bytes;
  pickle_loads : bytes -> load_opts -> result Obj
}.

(** [compress_utils]: the one-shot functions and the two stream objects,
    the latter as state machines ([compress]/[decompress] a chunk, [finish]). *)
Record CompressService : Type := mkCompress {
  compress : bytes -> string -> Z -> result bytes;
  decompress : bytes -> string -> result bytes;
  CStream : Type;
  CompressStream : string -> Z -> result CStream;
  cs_compress : CStream -> bytes -> result (bytes * CStream);
  cs_finish : CStream -> result bytes;
  DStream : Type;
  DecompressStream : string -> result DStream;
  ds_decompress : DStream -> bytes -> result (bytes * DStream);
  ds_finish : DStream -> result bytes
}.

(** The constants of [zpickle/format.py], which the specification leaves
    open: the five-byte magic/version marker, the table between algorithm
    names and ids, and what [decode_header] does in non-strict mode with a
    header it would reject in strict mode. *)
Record FormatTables : Type := mkFormat {
  MAGIC_VERSION : bytes;
  algorithm_id : string -> Z;
  id_algorithm : Z -> option string;
  decode_nonstrict : bytes -> result (Z * string * Z * Z)
}.

(** [zpickle.config.ZpickleConfig] *)
Record ZpickleConfig : Type := mkConfig {
  algorithm : string;
  level : Z;
  min_size : Z
}.

(** ** The world and the monad of a call *)

Record world : Type := mkWorld {
  config : ZpickleConfig;      (* the process-wide configuration store *)
  input : bytes;               (* unread part of the file given to a reader *)
  output : list bytes;         (* the [write] calls on the file given to a writer *)
  warnings : list warning      (* what [warnings.warn] was called with *)
}.

Definition set_input (i : bytes) (w : world) : world :=
  mkWorld (config w) i (output w) (warnings w).
Definition add_output (b : bytes) (w : world) : world :=
  mkWorld (config w) (input w) (output w ++ [b]) (warnings w).
Definition add_warning (x : warning) (w : world) : world :=
  mkWorld (config w) (input w) (output w) (warnings w ++ [x]).

(** The bytes a written file holds. *)
Definition getvalue (w : world) : bytes := concat (output w).

(** [None]: the fuel of a loop ran out. *)
Definition M (A : Type) : Type := world -> option (result A * world).

Definition ret {A} (a : A) : M A := fun w => Some (Ok a, w).
Definition raise {A} (e : exn) : M A := fun w => Some (Raise e, w).
Definition diverge {A} : M A := fun _ => None.
Definition lift {A} (r : result A) : M A := fun w => Some (r, w).

Definition bind {A B} (m : M A) (f : A -> M B) : M B :=
  fun w =>
    match m w with
    | Some (Ok a, w') => f a w'
    | Some (Raise e, w') => Some (Raise e, w')
    | None => None
    end.

(** [try: m  except Exception as e: h e].  The world keeps what [m] did to
    it before raising: bytes read from a file stay read. *)
Definition try_except {A} (m : M A) (h : exn -> M A) : M A :=
  fun w =>
    match m w with
    | Some (Ok a, w') => Some (Ok a, w')
    | Some (Raise e, w') => h e w'
    | None => None
    end.

Notation "x <- m ;; k" := (bind m (fun x => k))
  (at level 61, m at next level, right associativity).
Notation "' pat <- m ;; k" := (bind m (fun x => match x with pat => k end))
  (at level 61, pat pattern, m at next level, right associativity).
Notation "m ;;; k" := (bind m (fun _ => k))
  (at level 61, right associativity).

Definition get_config : M ZpickleConfig := fun w => Some (Ok (config w), w).

(** [file.read(n)] *)
Definition file_read (n : Z) : M bytes :=
  fun w =>
    let '(chunk, rest) := read_bytes n (input w) in
    Some (Ok chunk, set_input rest w).

(** [file.read()] *)
Definition file_read_all : M bytes := file_read (-1).

(** [file.write(b)] *)
Definition file_write (b : bytes) : M unit :=
  fun w => Some (Ok tt, add_output b w).

(** [warnings.warn(f"Error processing zpickle data, falling back to regular
    pickle: {e}", RuntimeWarning)] *)
Definition warn_fallback (e : exn) : M unit :=
  fun w =>
    Some (Ok tt,
          add_warning
            (RuntimeWarning
               ("Error processing zpickle data, falling back to regular pickle: "
                ++ exn_str e)%string) w).

(** The fuel of a read loop: one iteration per unread byte and one more. *)
Definition with_input_fuel {A} (f : nat -> M A) : M A :=
  fun w => f (S (length (input w))) w.

Definition bytes_eqb (a b : bytes) : bool :=
  if list_eq_dec Z.eq_dec a b then true else false.

(** ** The forward-only stream of the test suite

    [tests/test_streaming.py] reads through a [NonSeekableStream]: a buffer
    and a position, with [read] as its only method. *)

(** Where an index of a slice lands in a sequence of [len] items: a negative
    index counts from the end, and both ends are clamped. *)
Definition slice_index (i len : Z) : Z :=
  if i <? 0 then Z.max (i + len) 0 else Z.min i len.

(** [data[start:stop]], and [data[start:]] when [stop] is [None]. *)
Definition py_slice (data : bytes) (start : Z) (stop : option Z) : bytes :=
  let len := Z.of_nat (length data) in
  let lo := slice_index start len in
  let hi := match stop with Some b => slice_index b len | None => len end in
  firstn (Z.to_nat (hi - lo)) (skipn (Z.to_nat lo) data).

Record NonSeekableStream : Type := mkStream {
  _data : bytes;
  _pos : Z
}.

(** [NonSeekableStream.__init__] *)
Definition NonSeekableStream_init (data : bytes) : NonSeekableStream :=
  mkStream data 0.

(** [NonSeekableStream.read] *)
Definition NonSeekableStream_read (n : Z) (s : NonSeekableStream)
  : bytes * NonSeekableStream :=
  if n =? -1 then
    (py_slice (_data s) (_pos s) None,
     mkStream (_data s) (Z.of_nat (length (_data s))))
  else
    (py_slice (_data s) (_pos s) (Some (_pos s + n)),
     mkStream (_data s) (_pos s + n)).

(** What a reader at the position of the stream has still to see. *)
Definition unread (s : NonSeekableStream) : bytes :=
  skipn (Z.to_nat (_pos s)) (_data s).

(** ** What a call may do to the world *)

(** Every outcome of [m] relates the world before to the world after. *)
Definition respects {A} (R : world -> world -> Prop) (m : M A) : Prop :=
  forall w r w', m w = Some (r, w') -> R w w'.

(** [m] returns on every world: no loop of it runs out of fuel. *)
Definition terminates {A} (m : M A) : Prop :=
  forall w, exists r w', m w = Some (r, w').

(** The file written to grew; nothing else changed. *)
Definition only_writes (w w' : world) : Prop :=
  config w' = config w /\ input w' = input w /\ warnings w' = warnings w /\
  exists written, output w' = output w ++ written.

(** The file read from moved forward; nothing else changed. *)
Definition only_reads (w w' : world) : Prop :=
  config w' = config w /\ output w' = output w /\ warnings w' = warnings w /\
  exists consumed, input w = consumed ++ input w'.

(** As [only_reads], but one warning may have been emitted. *)
Definition reads_and_warns_once (w w' : world) : Prop :=
  config w' = config w /\ output w' = output w /\
  (warnings w' = warnings w \/ exists x, warnings w' = warnings w ++ [x]) /\
  exists consumed, input w = consumed ++ input w'.

(** ** A sample instance of the collaborators

    A small serializer (a list of octets behind a protocol opcode), a
    "stored" codec that frames the payload with one tag octet, and a header
    table with four compression algorithms.  The statements below are
    instantiated on it. *)

Module Sample.

Definition dumps_list (o : list Z) (_ : dump_opts) : result bytes :=
  Ok (128 :: o).

Definition loads_list (p : bytes) (_ : load_opts) : result (list Z) :=
  match p with
  | [] => Raise (EOFError "Ran out of input")
  | b :: o =>
      if b =? 128 then Ok o
      else Raise (UnpicklingError "invalid load key")
  end.

Definition pickle : PickleService := mkPickle (list Z) dumps_list loads_list.

Definition compresses (alg : string) : bool :=
  ((alg =? "zstd") || (alg =? "brotli") || (alg =? "zlib") || (alg =? "lzma"))%string.

Definition TAG : Z := 83.

Definition stored_compress (p : bytes) (alg : string) (_ : Z) : result bytes :=
  if compresses alg then Ok (TAG :: p)
  else Raise (CompressionError "unsupported algorithm").

Definition stored_decompress (c : bytes) (alg : string) : result bytes :=
  if compresses alg then
    match c with
    | b :: p => if b =? TAG then Ok p else Raise (CompressionError "corrupt data")
    | [] => Raise (CompressionError "truncated data")
    end
  else Raise (CompressionError "unsupported algorithm").

(** The state of either stream: has the tag gone by? *)
Definition new_compressor (alg : string) (_ : Z) : result bool :=
  if compresses alg then Ok false
  else Raise (CompressionError "unsupported algorithm").

Definition feed (started : bool) (chunk : bytes) : result (bytes * bool) :=
  Ok (if started then chunk else TAG :: chunk, true).

Definition finish (started : bool) : result bytes :=
  Ok (if started then [] else [TAG]).

Definition new_decompressor (alg : string) : result bool :=
  if compresses alg then Ok false
  else Raise (CompressionError "unsupported algorithm").

Definition unfeed (started : bool) (chunk : bytes) : result (bytes * bool) :=
  if started then Ok (chunk, true)
  else
    match chunk with
    | [] => Ok ([], false)
    | b :: r => if b =? TAG then Ok (r, true)
                else Raise (CompressionError "corrupt data")
    end.

Definition unfinish (started : bool) : result bytes :=
  if started then Ok [] else Raise (CompressionError "truncated data").

Definition codec : CompressService :=
  mkCompress stored_compress stored_decompress
    bool new_compressor feed finish
    bool new_decompressor unfeed unfinish.

Definition name_to_id (alg : string) : Z :=
  (if alg =? "zstd" then 1
   else if alg =? "brotli" then 2
   else if alg =? "zlib" then 3
   else if alg =? "lzma" then 4
   else 0)%string.

Definition id_to_name (id : Z) : option string :=
  if id =? 0 then Some "none"
  else if id =? 1 then Some "zstd"
  else if id =? 2 then Some "brotli"
  else if id =? 3 then Some "zlib"
  else if id =? 4 then Some "lzma"
  else None.

Definition format : FormatTables :=
  mkFormat [90; 80; 75; 76; 1] name_to_id id_to_name
    (fun _ => Raise (ValueError "unknown algorithm id")).

Definition supported (alg : string) : bool :=
  ((alg =? "none") || compresses alg)%string.

Definition cfg : ZpickleConfig := mkConfig "zstd" 3 4.

Definition fresh : world := mkWorld cfg [] [] [].

Definition default_dump : dump_opts := mkDumpOpts None true None.
Definition default_load : load_opts := mkLoadOpts true "ASCII" "strict" None.

(** An object whose serialized form reaches [min_size], and one below it. *)
Definition numbers : list Z := [1; 2; 3; 4; 5; 6; 7; 8; 9; 10].
Definition tiny : list Z := [1].

(** A header that names zlib at level 3, and a payload the codec rejects. *)
Definition zlib_header : bytes := [90; 80; 75; 76; 1; 3; 3; 0].
Definition garbage : bytes := [1; 2; 3].

(** A header whose algorithm id is in no table. *)
Definition unknown_header : bytes := [90; 80; 75; 76; 1; 9; 0; 0].

(** A codec without stream objects: both constructors raise. *)
Definition no_stream {A : Type} : result A :=
  Raise (CompressionError "streaming is not available").
Definition oneshot_codec : CompressService :=
  mkCompress stored_compress stored_decompress
    bool (fun _ _ => no_stream) feed finish
    bool (fun _ => no_stream) unfeed unfinish.

(** A codec that is out of order: every call of it raises. *)
Definition out_of_order {A : Type} : result A :=
  Raise (CompressionError "compressor failure").
Definition failing_codec : CompressService :=
  mkCompress (fun _ _ _ => out_of_order) (fun _ _ => out_of_order)
    bool (fun _ _ => out_of_order) (fun _ _ => out_of_order)
    (fun _ => out_of_order)
    bool (fun _ => out_of_order) (fun _ _ => out_of_order)
    (fun _ => out_of_order).

(** A configuration that asks for no compression. *)
Definition plain_cfg : ZpickleConfig := mkConfig "none" 3 4.
Definition plain : world := mkWorld plain_cfg [] [] [].

End Sample.

Section Zpickle.

Variable pk : PickleService.
Variable cu : CompressService.
Variable fmt : FormatTables.

(** ** [zpickle/format.py] *)

(** Modelled from the spec: [HEADER_SIZE] of [zpickle/format.py], the length
    of the fixed header record (8 bytes). *)
Definition HEADER_SIZE : Z := 8.

(** Modelled from the spec: [encode_header] of [zpickle/format.py].  Bytes 0-4
    hold the magic/version marker, byte 5 the algorithm id, byte 6 the level
    as given, byte 7 is reserved. *)
Definition encode_header (alg : string) (lvl : Z) : bytes :=
  MAGIC_VERSION fmt ++ [algorithm_id fmt alg; lvl; 0].

(** Modelled from the spec: [is_zpickle_data] of [zpickle/format.py].  True
    iff the first bytes are the magic/version marker; a buffer shorter than a
    header is never a container. *)
Definition is_zpickle_data (data : bytes) : bool :=
  (HEADER_SIZE <=? Z.of_nat (length data))
  && bytes_eqb (firstn 5 data) (MAGIC_VERSION fmt).

(** Modelled from the spec: [decode_header] of [zpickle/format.py].  It
    validates the marker and the algorithm id and returns
    [(version, algorithm, level, reserved)]; a header that fails the
    validation raises in strict mode, and in non-strict mode gives what the
    table's [decode_nonstrict] says (best-effort values or an error that the
    caller recovers from). *)
Definition decode_header (data : bytes) (strict : bool)
  : result (Z * string * Z * Z) :=
  match is_zpickle_data data, id_algorithm fmt (nth 5 data 0) with
  | true, Some name => Ok (nth 4 data 0, name, nth 6 data 0, nth 7 data 0)
  | _, _ =>
      if strict then Raise (ValueError "invalid zpickle header")
      else decode_nonstrict fmt data
  end.

(** ** [zpickle/core.py] *)

Definition DEFAULT_CHUNK_SIZE : Z := 64 * 1024.

Definition dumps (obj : Obj pk) (dop : dump_opts)
    (alg_arg : option string) (lvl_arg : option Z) : M bytes :=
  pickled_data <- lift (pickle_dumps pk obj dop) ;;
  config <- get_config ;;
  let alg := or_str alg_arg (algorithm config) in
  let lvl := or_int lvl_arg (level config) in
  if (Z.of_nat (length pickled_data) <? min_size config) || (alg =? "none")%string
  then
    let header := encode_header "none" 0 in
    ret (header ++ pickled_data)
  else
    compressed_data <- lift (compress cu pickled_data alg lvl) ;;
    let header := encode_header alg lvl in
    ret (header ++ compressed_data).

Definition loads (data : pyval) (lop : load_opts) (strict : bool) : M (Obj pk) :=
  match data with
  | PyOther ty =>
      raise (TypeError ("A bytes-like object is required, not '" ++ ty ++ "'")%string)
  | PyBytes data | PyByteArray data =>
      pickled_data <-
        (if is_zpickle_data data then
           try_except
             ('(_, algorithm, _, _) <- lift (decode_header data strict) ;;
              let compressed_data := skipn (Z.to_nat HEADER_SIZE) data in
              if (algorithm =? "none")%string then ret compressed_data
              else lift (decompress cu compressed_data algorithm))
             (fun e =>
                if strict then raise e
                else warn_fallback e ;;; ret data)
         else ret data) ;;
      lift (pickle_loads pk pickled_data lop)
  end.

Definition dump (obj : Obj pk) (dop : dump_opts)
    (alg_arg : option string) (lvl_arg : option Z) : M unit :=
  data <- dumps obj dop alg_arg lvl_arg ;;
  file_write data.

Definition load (lop : load_opts) (strict : bool) : M (Obj pk) :=
  header <- file_read HEADER_SIZE ;;
  pickled_data <-
    (if is_zpickle_data header then
       try_except
         ('(_, algorithm, _, _) <- lift (decode_header header strict) ;;
          compressed_data <- file_read_all ;;
          if (algorithm =? "none")%string then ret compressed_data
          else lift (decompress cu compressed_data algorithm))
         (fun e =>
            if strict then raise e
            else
              warn_fallback e ;;;
              rest <- file_read_all ;;
              ret (header ++ rest))
     else
       rest <- file_read_all ;;
       ret (header ++ rest)) ;;
  lift (pickle_loads pk pickled_data lop).

(** The loop of [dump_streaming] that copies the pickled buffer to the file
    when compression is skipped. *)
Fixpoint write_chunks (fuel : nat) (chunk_size : Z) (pickled_buffer : bytes)
  : M unit :=
  match fuel with
  | O => diverge
  | S fuel' =>
      let '(chunk, rest) := read_bytes chunk_size pickled_buffer in
      if is_empty chunk then ret tt
      else file_write chunk ;;; write_chunks fuel' chunk_size rest
  end.

(** The loop of [dump_streaming] that feeds the compressor. *)
Fixpoint compress_chunks (fuel : nat) (chunk_size : Z) (pickled_buffer : bytes)
    (compressor : CStream cu) : M (CStream cu) :=
  match fuel with
  | O => diverge
  | S fuel' =>
      let '(chunk, rest) := read_bytes chunk_size pickled_buffer in
      if is_empty chunk then ret compressor
      else
        '(compressed_chunk, compressor') <- lift (cs_compress cu compressor chunk) ;;
        (if is_empty compressed_chunk then ret tt
         else file_write compressed_chunk) ;;;
        compress_chunks fuel' chunk_size rest compressor'
  end.

Definition dump_streaming (obj : Obj pk) (dop : dump_opts)
    (alg_arg : option string) (lvl_arg : option Z) (chunk_size : Z) : M unit :=
  config <- get_config ;;
  let alg := or_str alg_arg (algorithm config) in
  let lvl := or_int lvl_arg (level config) in
  pickled_buffer <- lift (pickle_dumps pk obj dop) ;;
  let pickled_size := Z.of_nat (length pickled_buffer) in
  let fuel := S (length pickled_buffer) in
  if (pickled_size <? min_size config) || (alg =? "none")%string
  then
    let header := encode_header "none" 0 in
    file_write header ;;;
    write_chunks fuel chunk_size pickled_buffer
  else
    let header := encode_header alg lvl in
    file_write header ;;;
    compressor <- lift (CompressStream cu alg lvl) ;;
    compressor' <- compress_chunks fuel chunk_size pickled_buffer compressor ;;
    final_chunk <- lift (cs_finish cu compressor') ;;
    if is_empty final_chunk then ret tt else file_write final_chunk.

(** The loop of [load_streaming] for an uncompressed payload;
    [pickled_buffer] is what the [BytesIO] holds so far. *)
Fixpoint read_chunks (fuel : nat) (chunk_size : Z) (pickled_buffer : bytes)
  : M bytes :=
  match fuel with
  | O => diverge
  | S fuel' =>
      chunk <- file_read chunk_size ;;
      if is_empty chunk then ret pickled_buffer
      else read_chunks fuel' chunk_size (pickled_buffer ++ chunk)
  end.

(** The loop of [load_streaming] that feeds the decompressor. *)
Fixpoint decompress_chunks (fuel : nat) (chunk_size : Z)
    (decompressor : DStream cu) (pickled_buffer : bytes)
  : M (DStream cu * bytes) :=
  match fuel with
  | O => diverge
  | S fuel' =>
      chunk <- file_read chunk_size ;;
      if is_empty chunk then ret (decompressor, pickled_buffer)
      else
        '(decompressed_chunk, decompressor') <-
           lift (ds_decompress cu decompressor chunk) ;;
        decompress_chunks fuel' chunk_size decompressor'
          (if is_empty decompressed_chunk then pickled_buffer
           else pickled_buffer ++ decompressed_chunk)
  end.

Definition load_streaming (lop : load_opts) (strict : bool) (chunk_size : Z)
  : M (Obj pk) :=
  header <- file_read HEADER_SIZE ;;
  if Z.of_nat (length header) <? HEADER_SIZE then
    rest <- file_read_all ;;
    let pickled_data := header ++ rest in
    lift (pickle_loads pk pickled_data lop)
  else
    pickled_data <-
      (if is_zpickle_data header then
         try_except
           ('(_, algorithm, _, _) <- lift (decode_header header strict) ;;
            if (algorithm =? "none")%string then
              with_input_fuel (fun fuel => read_chunks fuel chunk_size [])
            else
              decompressor <- lift (DecompressStream cu algorithm) ;;
              '(decompressor', pickled_buffer) <-
                 with_input_fuel
                   (fun fuel => decompress_chunks fuel chunk_size decompressor []) ;;
              final_chunk <- lift (ds_finish cu decompressor') ;;
              ret (if is_empty final_chunk then pickled_buffer
                   else pickled_buffer ++ final_chunk))
           (fun e =>
              if strict then raise e
              else
                warn_fallback e ;;;
                rest <- file_read_all ;;
                ret (header ++ rest))
       else
         remaining_data <- file_read_all ;;
         ret (header ++ remaining_data)) ;;
    lift (pickle_loads pk pickled_data lop).

(** ** What is assumed of the collaborators *)

(** The chunks that successive [read(chunk_size)] calls cut a buffer into. *)
Fixpoint split_chunks (fuel : nat) (chunk_size : Z) (buf : bytes) : list bytes :=
  match fuel with
  | O => []
  | S fuel' =>
      let '(chunk, rest) := read_bytes chunk_size buf in
      if is_empty chunk then [] else chunk :: split_chunks fuel' chunk_size rest
  end.

(** A [CompressStream] fed a list of chunks: everything it emits. *)
Fixpoint feed_compressor (st : CStream cu) (chunks : list bytes)
  : result (bytes * CStream cu) :=
  match chunks with
  | [] => Ok ([], st)
  | c :: cs =>
      match cs_compress cu st c with
      | Ok (out, st') =>
          match feed_compressor st' cs with
          | Ok (outs, st'') => Ok (out ++ outs, st'')
          | Raise e => Raise e
          end
      | Raise e => Raise e
      end
  end.

Definition stream_compress (alg : string) (lvl : Z) (chunks : list bytes)
  : result bytes :=
  match CompressStream cu alg lvl with
  | Ok st =>
      match feed_compressor st chunks with
      | Ok (outs, st') =>
          match cs_finish cu st' with
          | Ok fin => Ok (outs ++ fin)
          | Raise e => Raise e
          end
      | Raise e => Raise e
      end
  | Raise e => Raise e
  end.

(** A [DecompressStream] fed a list of chunks. *)
Fixpoint feed_decompressor (st : DStream cu) (chunks : list bytes)
  : result (bytes * DStream cu) :=
  match chunks with
  | [] => Ok ([], st)
  | c :: cs =>
      match ds_decompress cu st c with
      | Ok (out, st') =>
          match feed_decompressor st' cs with
          | Ok (outs, st'') => Ok (out ++ outs, st'')
          | Raise e => Raise e
          end
      | Raise e => Raise e
      end
  end.

Definition stream_decompress (alg : string) (chunks : list bytes)
  : result bytes :=
  match DecompressStream cu alg with
  | Ok st =>
      match feed_decompressor st chunks with
      | Ok (outs, st') =>
          match ds_finish cu st' with
          | Ok fin => Ok (outs ++ fin)
          | Raise e => Raise e
          end
      | Raise e => Raise e
      end
  | Raise e => Raise e
  end.

Definition nonempty_chunks (chunks : list bytes) : Prop :=
  Forall (fun c => c <> []) chunks.

(** [c] is a compressed form of [p]: the one-shot decompressor and the
    stream decompressor, however [c] is cut into chunks, both give [p]. *)
Definition decodes_to (alg : string) (c p : bytes) : Prop :=
  decompress cu c alg = Ok p /\
  forall chunks, nonempty_chunks chunks -> concat chunks = c ->
    stream_decompress alg chunks = Ok p.

(** The algorithms that both the compressor and the header table know. *)
Variable supported : string -> bool.

(** The compressor is lossless on the supported algorithms, at every level,
    one-shot and incremental. *)
Definition compressor_contract : Prop :=
  forall alg lvl, supported alg = true -> alg <> "none" ->
    (forall p, exists c, compress cu p alg lvl = Ok c /\ decodes_to alg c p) /\
    (forall chunks, nonempty_chunks chunks ->
       exists c, stream_compress alg lvl chunks = Ok c
                 /\ decodes_to alg c (concat chunks)).

(** The header tables: a five-byte marker, id 0 for ["none"], and ids that
    name the supported algorithms back; no legal name is the empty string. *)
Definition format_contract : Prop :=
  length (MAGIC_VERSION fmt) = 5%nat /\
  algorithm_id fmt "none" = 0 /\
  id_algorithm fmt 0 = Some "none" /\
  (forall a, supported a = true -> id_algorithm fmt (algorithm_id fmt a) = Some a) /\
  (forall a, supported a = true -> a <> "").

(** ** Composite calls *)

(** [file.seek(0)] on the file that was written: what it holds is now
    what a reader finds. *)
Definition seek0 : M unit :=
  fun w => Some (Ok tt, set_input (getvalue w) w).

(** [d] frames the serialized bytes [p]: either verbatim behind the
    ["none"] header, or compressed behind the header of its algorithm. *)
Definition container_of (p d : bytes) : Prop :=
  d = encode_header "none" 0 ++ p \/
  exists alg lvl c,
    supported alg = true /\ alg <> "none" /\
    d = encode_header alg lvl ++ c /\ decodes_to alg c p.

(** [dump_streaming(obj, f, chunk_size=cw); f.seek(0);
    load_streaming(f, chunk_size=cr)] *)
Definition streaming_roundtrip (obj : Obj pk) (dop : dump_opts) (lop : load_opts)
    (alg_arg : option string) (lvl_arg : option Z) (strict : bool)
    (cw cr : Z) : M (Obj pk) :=
  dump_streaming obj dop alg_arg lvl_arg cw ;;;
  seek0 ;;;
  load_streaming lop strict cr.

(** ** Reading a buffer *)

Lemma firstn_length_app (a b : bytes) : firstn (length a) (a ++ b) = a.
Proof.
  rewrite firstn_app, Nat.sub_diag, firstn_all. cbn. apply app_nil_r.
Qed.

Lemma skipn_length_app (a b : bytes) : skipn (length a) (a ++ b) = b.
Proof.
  rewrite skipn_app, Nat.sub_diag, skipn_all. reflexivity.
Qed.

Lemma read_bytes_app (n : Z) (buf : bytes) :
  fst (read_bytes n buf) ++ snd (read_bytes n buf) = buf.
Proof.
  unfold read_bytes. destruct (n <? 0); cbn.
  - apply app_nil_r.
  - apply firstn_skipn.
Qed.

Lemma read_bytes_progress (n : Z) (buf : bytes) :
  n <> 0 -> buf <> [] ->
  fst (read_bytes n buf) <> [] /\
  (length (snd (read_bytes n buf)) < length buf)%nat.
Proof.
  intros Hn Hbuf. unfold read_bytes.
  destruct (n <? 0) eqn:Hneg; cbn.
  - split; [assumption|]. destruct buf; [congruence | cbn; lia].
  - apply Z.ltb_ge in Hneg.
    destruct (Z.to_nat n) as [|k] eqn:Hk; [lia|].
    destruct buf as [|b buf]; [congruence|]. cbn. split; [discriminate|].
    rewrite length_skipn. lia.
Qed.

Lemma read_bytes_header (h rest : bytes) :
  length h = 8%nat -> read_bytes HEADER_SIZE (h ++ rest) = (h, rest).
Proof.
  intros Hlen. unfold read_bytes, HEADER_SIZE. cbn [Z.ltb Z.compare].
  change (Z.to_nat 8) with 8%nat. rewrite <- Hlen.
  now rewrite firstn_length_app, skipn_length_app.
Qed.

Lemma read_bytes_all (buf : bytes) : read_bytes (-1) buf = (buf, []).
Proof. reflexivity. Qed.

Lemma is_empty_true (b : bytes) : is_empty b = true <-> b = [].
Proof. destruct b; cbn; split; congruence. Qed.

Lemma is_empty_false (b : bytes) : is_empty b = false <-> b <> [].
Proof. destruct b; cbn; split; congruence. Qed.

Lemma bytes_eqb_eq (a b : bytes) : bytes_eqb a b = true <-> a = b.
Proof.
  unfold bytes_eqb. destruct (list_eq_dec Z.eq_dec a b); split; congruence.
Qed.

(** ** The fallback value of an optional argument *)

Lemma or_str_given (a d : string) : a <> "" -> or_str (Some a) d = a.
Proof.
  intros Ha. cbn. destruct (String.eqb_spec a ""); congruence.
Qed.

Lemma or_int_zero (d : Z) : or_int (Some 0) d = d.
Proof. reflexivity. Qed.

(** ** The header codec *)

Lemma encode_header_length (alg : string) (lvl : Z) :
  length (MAGIC_VERSION fmt) = 5%nat ->
  length (encode_header alg lvl) = 8%nat.
Proof.
  intros Hm. unfold encode_header. rewrite length_app, Hm. reflexivity.
Qed.

Lemma encode_header_nth (alg : string) (lvl : Z) (rest : bytes) :
  length (MAGIC_VERSION fmt) = 5%nat ->
  nth_error (encode_header alg lvl ++ rest) 5 = Some (algorithm_id fmt alg) /\
  nth_error (encode_header alg lvl ++ rest) 6 = Some lvl.
Proof.
  intros Hm. unfold encode_header. rewrite <- !app_assoc.
  split; (rewrite nth_error_app2 by lia); rewrite Hm; reflexivity.
Qed.

Lemma is_zpickle_data_encode (alg : string) (lvl : Z) (rest : bytes) :
  length (MAGIC_VERSION fmt) = 5%nat ->
  is_zpickle_data (encode_header alg lvl ++ rest) = true.
Proof.
  intros Hm. unfold is_zpickle_data, HEADER_SIZE.
  apply andb_true_iff. split.
  - apply Z.leb_le. rewrite length_app, encode_header_length by assumption. lia.
  - apply bytes_eqb_eq. unfold encode_header. rewrite <- app_assoc.
    rewrite <- Hm. now rewrite firstn_length_app.
Qed.

(** Detection looks at the first eight bytes only. *)
Lemma is_zpickle_data_prefix (data : bytes) :
  is_zpickle_data (firstn 8 data) = is_zpickle_data data.
Proof.
  unfold is_zpickle_data, HEADER_SIZE.
  rewrite firstn_firstn. change (Init.Nat.min 5 8) with 5%nat.
  rewrite length_firstn.
  destruct (bytes_eqb (firstn 5 data) (MAGIC_VERSION fmt));
    rewrite ?andb_true_r, ?andb_false_r; [|reflexivity].
  destruct (8 <=? Z.of_nat (length data)) eqn:H.
  - apply Z.leb_le in H. apply Z.leb_le. lia.
  - apply Z.leb_gt in H. apply Z.leb_gt. lia.
Qed.

Lemma decode_header_encode (alg : string) (lvl : Z) (rest : bytes) (strict : bool) :
  length (MAGIC_VERSION fmt) = 5%nat ->
  id_algorithm fmt (algorithm_id fmt alg) = Some alg ->
  exists v r, decode_header (encode_header alg lvl ++ rest) strict = Ok (v, alg, lvl, r).
Proof.
  intros Hm Hid. unfold decode_header.
  rewrite is_zpickle_data_encode by assumption.
  destruct (encode_header_nth alg lvl rest Hm) as [H5 H6].
  rewrite (nth_error_nth _ _ 0 H5), (nth_error_nth _ _ 0 H6), Hid.
  eauto.
Qed.

Lemma skipn_header (alg : string) (lvl : Z) (rest : bytes) :
  length (MAGIC_VERSION fmt) = 5%nat ->
  skipn (Z.to_nat HEADER_SIZE) (encode_header alg lvl ++ rest) = rest.
Proof.
  intros Hm. change (Z.to_nat HEADER_SIZE) with 8%nat.
  rewrite <- (encode_header_length alg lvl Hm).
  now rewrite skipn_length_app.
Qed.

(** ** Foreign data: no container framing *)

Lemma file_read_eq (n : Z) (w : world) :
  file_read n w =
  Some (Ok (fst (read_bytes n (input w))),
        set_input (snd (read_bytes n (input w))) w).
Proof.
  unfold file_read. now destruct (read_bytes n (input w)).
Qed.

Lemma firstn_skipn_header (data : bytes) :
  read_bytes HEADER_SIZE data = (firstn 8 data, skipn 8 data).
Proof. reflexivity. Qed.

Lemma loads_foreign (data : bytes) (lop : load_opts) (strict : bool) (w : world) :
  is_zpickle_data data = false ->
  loads (PyBytes data) lop strict w = Some (pickle_loads pk data lop, w).
Proof.
  intros H. unfold loads. rewrite H. reflexivity.
Qed.

Lemma load_foreign (data : bytes) (lop : load_opts) (strict : bool)
    (cfg : ZpickleConfig) (out : list bytes) (ws : list warning) :
  is_zpickle_data data = false ->
  load lop strict (mkWorld cfg data out ws)
  = Some (pickle_loads pk data lop, mkWorld cfg [] out ws).
Proof.
  intros H. unfold load, bind at 1. rewrite file_read_eq. cbn [input].
  rewrite firstn_skipn_header. cbn [fst snd].
  rewrite is_zpickle_data_prefix, H.
  unfold bind, file_read_all. rewrite file_read_eq. cbn -[firstn skipn].
  now rewrite firstn_skipn.
Qed.

Lemma load_streaming_short (data : bytes) (lop : load_opts) (strict : bool)
    (chunk_size : Z) (cfg : ZpickleConfig) (out : list bytes) (ws : list warning) :
  (length data < 8)%nat ->
  load_streaming lop strict chunk_size (mkWorld cfg data out ws)
  = Some (pickle_loads pk data lop, mkWorld cfg [] out ws).
Proof.
  intros H. unfold load_streaming, bind at 1. rewrite file_read_eq. cbn [input].
  rewrite firstn_skipn_header. cbn [fst snd].
  assert (Hlt : (Z.of_nat (length (firstn 8 data)) <? HEADER_SIZE) = true).
  { apply Z.ltb_lt. rewrite length_firstn. unfold HEADER_SIZE. lia. }
  rewrite Hlt. unfold bind, file_read_all. rewrite file_read_eq. cbn -[firstn skipn].
  now rewrite firstn_skipn.
Qed.

Lemma load_streaming_foreign (data : bytes) (lop : load_opts) (strict : bool)
    (chunk_size : Z) (cfg : ZpickleConfig) (out : list bytes) (ws : list warning) :
  is_zpickle_data data = false ->
  load_streaming lop strict chunk_size (mkWorld cfg data out ws)
  = Some (pickle_loads pk data lop, mkWorld cfg [] out ws).
Proof.
  intros H.
  destruct (Nat.lt_ge_cases (length data) 8) as [Hs | Hl].
  - now apply load_streaming_short.
  - unfold load_streaming, bind at 1. rewrite file_read_eq. cbn [input].
    rewrite firstn_skipn_header. cbn [fst snd].
    assert (Hge : (Z.of_nat (length (firstn 8 data)) <? HEADER_SIZE) = false).
    { apply Z.ltb_ge. rewrite length_firstn. unfold HEADER_SIZE. lia. }
    rewrite Hge, is_zpickle_data_prefix, H.
    unfold bind, file_read_all. rewrite file_read_eq. cbn -[firstn skipn].
    now rewrite firstn_skipn.
Qed.

(** ** The chunk loops *)

Lemma read_bytes_shrinks (n : Z) (buf : bytes) :
  fst (read_bytes n buf) <> [] ->
  (length (snd (read_bytes n buf)) < length buf)%nat.
Proof.
  intros Hc. pose proof (read_bytes_app n buf) as Happ.
  apply (f_equal (@length Z)) in Happ. rewrite length_app in Happ.
  destruct (fst (read_bytes n buf)); [congruence | cbn in Happ; lia].
Qed.

Lemma read_bytes_exhausted (n : Z) (buf : bytes) :
  n <> 0 -> fst (read_bytes n buf) = [] -> buf = [].
Proof.
  intros Hn Hc. destruct buf as [|b buf]; [reflexivity|].
  destruct (read_bytes_progress n (b :: buf) Hn) as [Hne _]; congruence.
Qed.

Lemma split_chunks_nonempty (fuel : nat) (n : Z) (buf : bytes) :
  nonempty_chunks (split_chunks fuel n buf).
Proof.
  revert buf. induction fuel as [|fuel IH]; intros buf; cbn.
  - constructor.
  - destruct (read_bytes n buf) as [chunk rest].
    destruct (is_empty chunk) eqn:He; constructor.
    + now apply is_empty_false.
    + apply IH.
Qed.

Lemma split_chunks_concat (fuel : nat) (n : Z) (buf : bytes) :
  n <> 0 -> (length buf < fuel)%nat ->
  concat (split_chunks fuel n buf) = buf.
Proof.
  intros Hn. revert buf. induction fuel as [|fuel IH]; intros buf Hlen; [lia|].
  cbn. pose proof (read_bytes_app n buf) as Happ.
  pose proof (read_bytes_shrinks n buf) as Hshr.
  pose proof (read_bytes_exhausted n buf Hn) as Hex.
  destruct (read_bytes n buf) as [chunk rest]. cbn [fst snd] in *.
  destruct (is_empty chunk) eqn:He.
  - apply is_empty_true in He. symmetry. now apply Hex.
  - apply is_empty_false in He. cbn. rewrite IH; [assumption|].
    specialize (Hshr He). lia.
Qed.

Lemma write_chunks_spec (fuel : nat) (n : Z) (buf : bytes) (w : world) :
  (length buf < fuel)%nat ->
  write_chunks fuel n buf w
  = Some (Ok tt, mkWorld (config w) (input w)
                   (output w ++ split_chunks fuel n buf) (warnings w)).
Proof.
  revert buf w. induction fuel as [|fuel IH]; intros buf w Hlen; [lia|].
  cbn. pose proof (read_bytes_shrinks n buf) as Hshr.
  destruct (read_bytes n buf) as [chunk rest]. cbn [fst snd] in *.
  destruct (is_empty chunk) eqn:He.
  - unfold ret. rewrite app_nil_r. now destruct w.
  - apply is_empty_false in He. specialize (Hshr He).
    unfold bind, file_write. rewrite IH by lia. cbn.
    now rewrite <- app_assoc.
Qed.

Lemma compress_chunks_spec (fuel : nat) (n : Z) (buf : bytes)
    (st st' : CStream cu) (outs : bytes) (w : world) :
  (length buf < fuel)%nat ->
  feed_compressor st (split_chunks fuel n buf) = Ok (outs, st') ->
  exists written,
    compress_chunks fuel n buf st w
    = Some (Ok st', mkWorld (config w) (input w)
                      (output w ++ written) (warnings w))
    /\ concat written = outs.
Proof.
  revert buf st outs w. induction fuel as [|fuel IH]; intros buf st outs w Hlen; [lia|].
  cbn. pose proof (read_bytes_shrinks n buf) as Hshr.
  destruct (read_bytes n buf) as [chunk rest]. cbn [fst snd] in *.
  destruct (is_empty chunk) eqn:He.
  - cbn. intros Hfeed. injection Hfeed as <- <-. exists [].
    unfold ret. rewrite app_nil_r. split; [now destruct w | reflexivity].
  - apply is_empty_false in He. specialize (Hshr He). cbn.
    unfold bind at 1, lift.
    destruct (cs_compress cu st chunk) as [[out st1]|e]; [|discriminate].
    destruct (feed_compressor st1 (split_chunks fuel n rest))
      as [[outs1 st2]|e] eqn:Hrest; [|discriminate].
    intros Hfeed. injection Hfeed as <- <-.
    destruct (is_empty out) eqn:Hout.
    + apply is_empty_true in Hout. subst out.
      destruct (IH rest st1 outs1 w ltac:(lia) Hrest) as [written [Hrun Hcat]].
      exists written. unfold bind, ret. rewrite Hrun. now split.
    + destruct (IH rest st1 outs1 (add_output out w) ltac:(lia) Hrest)
        as [written [Hrun Hcat]].
      exists (out :: written). unfold bind, file_write. rewrite Hrun. cbn.
      rewrite <- app_assoc. cbn. now rewrite Hcat.
Qed.

Lemma read_chunks_spec (fuel : nat) (n : Z) (acc : bytes) (w : world) :
  n <> 0 -> (length (input w) < fuel)%nat ->
  read_chunks fuel n acc w = Some (Ok (acc ++ input w), set_input [] w).
Proof.
  intros Hn. revert acc w. induction fuel as [|fuel IH]; intros acc w Hlen; [lia|].
  cbn. unfold bind at 1. rewrite file_read_eq.
  pose proof (read_bytes_app n (input w)) as Happ.
  pose proof (read_bytes_shrinks n (input w)) as Hshr.
  pose proof (read_bytes_exhausted n (input w) Hn) as Hex.
  destruct (read_bytes n (input w)) as [chunk rest]. cbn [fst snd] in *.
  destruct (is_empty chunk) eqn:He.
  - apply is_empty_true in He. subst chunk. rewrite (Hex eq_refl) in *.
    cbn in Happ. subst rest. unfold ret. now rewrite app_nil_r.
  - apply is_empty_false in He. specialize (Hshr He).
    rewrite IH by (cbn; lia). cbn. now rewrite <- app_assoc, Happ.
Qed.

Lemma decompress_chunks_spec (fuel : nat) (n : Z) (st st' : DStream cu)
    (acc outs : bytes) (w : world) :
  n <> 0 -> (length (input w) < fuel)%nat ->
  feed_decompressor st (split_chunks fuel n (input w)) = Ok (outs, st') ->
  decompress_chunks fuel n st acc w = Some (Ok (st', acc ++ outs), set_input [] w).
Proof.
  intros Hn. revert st acc outs w.
  induction fuel as [|fuel IH]; intros st acc outs w Hlen; [lia|].
  cbn. unfold bind at 1. rewrite file_read_eq.
  pose proof (read_bytes_app n (input w)) as Happ.
  pose proof (read_bytes_shrinks n (input w)) as Hshr.
  pose proof (read_bytes_exhausted n (input w) Hn) as Hex.
  destruct (read_bytes n (input w)) as [chunk rest]. cbn [fst snd] in *.
  destruct (is_empty chunk) eqn:He.
  - apply is_empty_true in He. subst chunk. rewrite (Hex eq_refl) in *.
    cbn in Happ. subst rest. cbn. intros Hfeed. injection Hfeed as <- <-.
    unfold ret. now rewrite app_nil_r.
  - apply is_empty_false in He. specialize (Hshr He). cbn.
    destruct (ds_decompress cu st chunk) as [[out st1]|e]; [|discriminate].
    destruct (feed_decompressor st1 (split_chunks fuel n rest))
      as [[outs1 st2]|e] eqn:Hrest; [|discriminate].
    intros Hfeed. injection Hfeed as <- <-.
    rewrite (IH st1 _ outs1 (set_input rest w)) by (cbn; solve [lia | assumption]).
    cbn. destruct (is_empty out) eqn:Hout.
    + apply is_empty_true in Hout. now subst out.
    + now rewrite <- app_assoc.
Qed.

(** ** Writers produce containers *)

Lemma skip_test_false (p : bytes) (cfg : ZpickleConfig) (alg : string) :
  (Z.of_nat (length p) <? min_size cfg) || (alg =? "none")%string = false ->
  min_size cfg <= Z.of_nat (length p) /\ alg <> "none".
Proof.
  intros H. apply orb_false_iff in H. destruct H as [H1 H2].
  apply Z.ltb_ge in H1. apply String.eqb_neq in H2. now split.
Qed.

Lemma dumps_container (obj : Obj pk) (dop : dump_opts) (alg_arg : option string)
    (lvl_arg : option Z) (p : bytes) (w : world) :
  compressor_contract ->
  supported (or_str alg_arg (algorithm (config w))) = true ->
  pickle_dumps pk obj dop = Ok p ->
  exists d, dumps obj dop alg_arg lvl_arg w = Some (Ok d, w) /\ container_of p d.
Proof.
  intros Hcu Hsup Hp. unfold dumps, bind, lift, get_config. rewrite Hp.
  destruct ((Z.of_nat (length p) <? min_size (config w))
            || (or_str alg_arg (algorithm (config w)) =? "none")%string) eqn:Hskip.
  - eexists. split; [reflexivity|]. now left.
  - apply skip_test_false in Hskip. destruct Hskip as [_ Hnone].
    destruct (Hcu _ (or_int lvl_arg (level (config w))) Hsup Hnone) as [Hone _].
    destruct (Hone p) as [c [Hc Hdec]]. rewrite Hc.
    eexists. split; [reflexivity|]. right. eauto 8.
Qed.

Lemma dump_streaming_container (obj : Obj pk) (dop : dump_opts)
    (alg_arg : option string) (lvl_arg : option Z) (chunk_size : Z)
    (p : bytes) (w : world) :
  compressor_contract ->
  supported (or_str alg_arg (algorithm (config w))) = true ->
  pickle_dumps pk obj dop = Ok p ->
  chunk_size <> 0 ->
  exists written,
    dump_streaming obj dop alg_arg lvl_arg chunk_size w
    = Some (Ok tt, mkWorld (config w) (input w)
                     (output w ++ written) (warnings w))
    /\ container_of p (concat written).
Proof.
  intros Hcu Hsup Hp Hn. unfold dump_streaming, bind at 1, get_config.
  unfold bind at 1, lift. rewrite Hp.
  pose proof (split_chunks_concat (S (length p)) chunk_size p Hn (Nat.lt_succ_diag_r _))
    as Hcat.
  destruct ((Z.of_nat (length p) <? min_size (config w))
            || (or_str alg_arg (algorithm (config w)) =? "none")%string) eqn:Hskip.
  - exists (encode_header "none" 0 :: split_chunks (S (length p)) chunk_size p).
    split.
    + unfold bind, file_write. rewrite write_chunks_spec by (cbn; lia). cbn.
      now rewrite <- app_assoc.
    + left. cbn [concat]. now rewrite Hcat.
  - apply skip_test_false in Hskip. destruct Hskip as [_ Hnone].
    set (alg := or_str alg_arg (algorithm (config w))) in *.
    set (lvl := or_int lvl_arg (level (config w))).
    destruct (Hcu alg lvl Hsup Hnone) as [_ Hstream].
    destruct (Hstream _ (split_chunks_nonempty (S (length p)) chunk_size p))
      as [c [Hc Hdec]].
    rewrite Hcat in Hdec. unfold stream_compress in Hc.
    unfold bind at 1, file_write. unfold bind at 1, lift.
    destruct (CompressStream cu alg lvl) as [st|e]; [|discriminate].
    destruct (feed_compressor st (split_chunks (S (length p)) chunk_size p))
      as [[outs st']|e] eqn:Hfeed; [|discriminate].
    destruct (cs_finish cu st') as [fin|e] eqn:Hfin; [|discriminate].
    injection Hc as <-.
    destruct (compress_chunks_spec (S (length p)) chunk_size p st st' outs
                (add_output (encode_header alg lvl) w)
                (Nat.lt_succ_diag_r _) Hfeed) as [written [Hrun Hw]].
    unfold bind at 1. rewrite Hrun. unfold bind, lift. rewrite Hfin.
    destruct (is_empty fin) eqn:He.
    + apply is_empty_true in He. subst fin.
      exists (encode_header alg lvl :: written). split.
      * unfold ret. cbn. now rewrite <- app_assoc.
      * right. exists alg, lvl, (outs ++ []). cbn [concat]. rewrite Hw, app_nil_r in *.
        auto.
    + exists (encode_header alg lvl :: written ++ [fin]). split.
      * unfold file_write, add_output. cbn. now rewrite <- !app_assoc.
      * right. exists alg, lvl, (outs ++ fin). cbn [concat].
        rewrite concat_app, Hw. cbn [concat]. rewrite app_nil_r. auto.
Qed.

(** ** Readers open containers *)

Lemma container_header (p d : bytes) :
  format_contract -> container_of p d ->
  exists alg lvl body,
    d = encode_header alg lvl ++ body /\
    id_algorithm fmt (algorithm_id fmt alg) = Some alg /\
    ((alg = "none" /\ body = p) \/ (alg <> "none" /\ decodes_to alg body p)).
Proof.
  intros (Hm & Hnone & Hzero & Hid & _) [Hd | (alg & lvl & c & Hsup & Hne & Hd & Hdec)].
  - exists "none", 0, p. rewrite Hnone. auto.
  - exists alg, lvl, c. auto.
Qed.

Lemma loads_container (p d : bytes) (lop : load_opts) (strict : bool) (w : world) :
  format_contract -> container_of p d ->
  loads (PyBytes d) lop strict w = Some (pickle_loads pk p lop, w).
Proof.
  intros Hfmt Hd. pose proof Hfmt as (Hm & _).
  destruct (container_header p d Hfmt Hd) as (alg & lvl & body & -> & Hid & Hbody).
  destruct (decode_header_encode alg lvl body strict Hm Hid) as (v & r & Hdec).
  unfold loads. rewrite is_zpickle_data_encode by assumption.
  unfold bind at 1, try_except, bind at 1, lift. rewrite Hdec.
  rewrite skipn_header by assumption.
  destruct Hbody as [[-> ->] | [Hne [Hone _]]].
  - reflexivity.
  - apply String.eqb_neq in Hne. rewrite Hne, Hone. reflexivity.
Qed.

Lemma load_container (p d : bytes) (lop : load_opts) (strict : bool)
    (cfg : ZpickleConfig) (out : list bytes) (ws : list warning) :
  format_contract -> container_of p d ->
  load lop strict (mkWorld cfg d out ws)
  = Some (pickle_loads pk p lop, mkWorld cfg [] out ws).
Proof.
  intros Hfmt Hd. pose proof Hfmt as (Hm & _).
  destruct (container_header p d Hfmt Hd) as (alg & lvl & body & -> & Hid & Hbody).
  destruct (decode_header_encode alg lvl [] strict Hm Hid) as (v & r & Hdec).
  rewrite app_nil_r in Hdec.
  unfold load, bind at 1. rewrite file_read_eq. cbn [input].
  rewrite read_bytes_header by now apply encode_header_length.
  cbn [fst snd].
  rewrite <- (app_nil_r (encode_header alg lvl)) at 1.
  rewrite is_zpickle_data_encode by assumption.
  unfold bind at 1, try_except, bind at 1, lift. rewrite Hdec.
  unfold bind at 1, file_read_all. rewrite file_read_eq. cbn [input set_input].
  rewrite read_bytes_all. cbn [fst snd].
  destruct Hbody as [[-> ->] | [Hne [Hone _]]].
  - reflexivity.
  - apply String.eqb_neq in Hne. rewrite Hne, Hone. reflexivity.
Qed.

Lemma load_streaming_container (p d : bytes) (lop : load_opts) (strict : bool)
    (chunk_size : Z) (cfg : ZpickleConfig) (out : list bytes) (ws : list warning) :
  format_contract -> container_of p d -> chunk_size <> 0 ->
  load_streaming lop strict chunk_size (mkWorld cfg d out ws)
  = Some (pickle_loads pk p lop, mkWorld cfg [] out ws).
Proof.
  intros Hfmt Hd Hn. pose proof Hfmt as (Hm & _).
  destruct (container_header p d Hfmt Hd) as (alg & lvl & body & -> & Hid & Hbody).
  destruct (decode_header_encode alg lvl [] strict Hm Hid) as (v & r & Hdec).
  rewrite app_nil_r in Hdec.
  unfold load_streaming, bind at 1. rewrite file_read_eq. cbn [input].
  rewrite read_bytes_header by now apply encode_header_length.
  cbn [fst snd]. rewrite (encode_header_length alg lvl Hm).
  change (Z.of_nat 8 <? HEADER_SIZE) with false. cbv iota.
  rewrite <- (app_nil_r (encode_header alg lvl)) at 1.
  rewrite is_zpickle_data_encode by assumption.
  unfold bind at 1, try_except, bind at 1, lift. rewrite Hdec.
  destruct Hbody as [[-> ->] | [Hne [_ Hstream]]].
  - cbn [String.eqb Ascii.eqb Bool.eqb]. unfold with_input_fuel.
    rewrite read_chunks_spec by (cbn; solve [assumption | lia]). reflexivity.
  - apply String.eqb_neq in Hne. rewrite Hne.
    specialize (Hstream _ (split_chunks_nonempty (S (length body)) chunk_size body)
                  (split_chunks_concat (S (length body)) chunk_size body Hn
                     (Nat.lt_succ_diag_r _))).
    unfold stream_decompress in Hstream. unfold bind at 1, lift.
    destruct (DecompressStream cu alg) as [st|e]; [|discriminate].
    destruct (feed_decompressor st (split_chunks (S (length body)) chunk_size body))
      as [[outs st']|e] eqn:Hfeed; [|discriminate].
    destruct (ds_finish cu st') as [fin|e] eqn:Hfin; [|discriminate].
    injection Hstream as <-.
    unfold bind at 1, with_input_fuel.
    rewrite (decompress_chunks_spec _ chunk_size st st' [] outs _ Hn)
      by (cbn; solve [assumption | lia]).
    unfold bind, lift, ret. rewrite Hfin. cbn [app set_input input].
    destruct (is_empty fin) eqn:He; [|reflexivity].
    apply is_empty_true in He. subst fin. now rewrite app_nil_r.
Qed.

(** ** Writing, rewinding, reading *)

Lemma dump_spec (obj : Obj pk) (dop : dump_opts) (alg_arg : option string)
    (lvl_arg : option Z) (d : bytes) (w : world) :
  dumps obj dop alg_arg lvl_arg w = Some (Ok d, w) ->
  dump obj dop alg_arg lvl_arg w = Some (Ok tt, add_output d w).
Proof.
  intros H. unfold dump, bind. now rewrite H.
Qed.

Lemma dump_then_read {A : Type} (reader : M A) (obj : Obj pk) (dop : dump_opts)
    (alg_arg : option string) (lvl_arg : option Z) (d : bytes) (w : world) :
  output w = [] ->
  dumps obj dop alg_arg lvl_arg w = Some (Ok d, w) ->
  (dump obj dop alg_arg lvl_arg ;;; seek0 ;;; reader) w
  = reader (mkWorld (config w) d [d] (warnings w)).
Proof.
  intros Hout H. unfold bind at 1. rewrite (dump_spec _ _ _ _ _ _ H).
  unfold bind, seek0, getvalue, set_input, add_output. cbn.
  rewrite Hout. cbn. now rewrite app_nil_r.
Qed.

Lemma dump_streaming_then_read {A : Type} (reader : M A) (obj : Obj pk)
    (dop : dump_opts) (alg_arg : option string) (lvl_arg : option Z)
    (chunk_size : Z) (written : list bytes) (w : world) :
  output w = [] ->
  dump_streaming obj dop alg_arg lvl_arg chunk_size w
  = Some (Ok tt, mkWorld (config w) (input w) (output w ++ written) (warnings w)) ->
  (dump_streaming obj dop alg_arg lvl_arg chunk_size ;;; seek0 ;;; reader) w
  = reader (mkWorld (config w) (concat written) written (warnings w)).
Proof.
  intros Hout H. unfold bind at 1. rewrite H.
  unfold bind, seek0, getvalue, set_input. cbn. now rewrite Hout.
Qed.

(** ** The fallback of the readers *)

Lemma loads_fallback (data : bytes) (lop : load_opts) (e : exn) (w : world) :
  is_zpickle_data data = true ->
  decode_header data false = Raise e ->
  loads (PyBytes data) lop false w
  = Some (pickle_loads pk data lop,
          add_warning
            (RuntimeWarning
               ("Error processing zpickle data, falling back to regular pickle: "
                ++ exn_str e)%string) w).
Proof.
  intros Hz Hd. unfold loads. rewrite Hz.
  unfold bind at 1, try_except, bind at 1, lift. rewrite Hd. reflexivity.
Qed.

Lemma loads_fallback_decompress (data : bytes) (lop : load_opts) (e : exn)
    (v l r : Z) (alg : string) (w : world) :
  is_zpickle_data data = true ->
  decode_header data false = Ok (v, alg, l, r) -> alg <> "none" ->
  decompress cu (skipn 8 data) alg = Raise e ->
  loads (PyBytes data) lop false w
  = Some (pickle_loads pk data lop,
          add_warning
            (RuntimeWarning
               ("Error processing zpickle data, falling back to regular pickle: "
                ++ exn_str e)%string) w).
Proof.
  intros Hz Hd Hne Hc. unfold loads. rewrite Hz.
  unfold bind at 1, try_except, bind at 1, lift. rewrite Hd.
  apply String.eqb_neq in Hne. rewrite Hne.
  change (Z.to_nat HEADER_SIZE) with 8%nat. rewrite Hc. reflexivity.
Qed.

Lemma load_fallback_header (header rest : bytes) (lop : load_opts) (e : exn)
    (cfg : ZpickleConfig) (out : list bytes) (ws : list warning) :
  length header = 8%nat ->
  is_zpickle_data header = true ->
  decode_header header false = Raise e ->
  load lop false (mkWorld cfg (header ++ rest) out ws)
  = Some (pickle_loads pk (header ++ rest) lop,
          mkWorld cfg [] out
            (ws ++ [RuntimeWarning
                      ("Error processing zpickle data, falling back to regular pickle: "
                       ++ exn_str e)%string])).
Proof.
  intros Hlen Hz Hd. unfold load, bind at 1. rewrite file_read_eq. cbn [input].
  rewrite read_bytes_header by assumption. cbn [fst snd]. rewrite Hz.
  unfold bind at 1, try_except, bind at 1, lift. rewrite Hd. reflexivity.
Qed.

(** In [load_streaming] the chunk on which the decompressor raises has been
    read: the fallback sees the header and what follows that chunk. *)
Lemma load_streaming_fallback_after_chunk_error (header body chunk rest : bytes)
    (lop : load_opts) (e : exn) (v l r : Z) (alg : string) (st : DStream cu)
    (chunk_size : Z) (cfg : ZpickleConfig) (out : list bytes) (ws : list warning) :
  length header = 8%nat ->
  is_zpickle_data header = true ->
  decode_header header false = Ok (v, alg, l, r) -> alg <> "none" ->
  DecompressStream cu alg = Ok st ->
  read_bytes chunk_size body = (chunk, rest) -> chunk <> [] ->
  ds_decompress cu st chunk = Raise e ->
  load_streaming lop false chunk_size (mkWorld cfg (header ++ body) out ws)
  = Some (pickle_loads pk (header ++ rest) lop,
          mkWorld cfg [] out
            (ws ++ [RuntimeWarning
                      ("Error processing zpickle data, falling back to regular pickle: "
                       ++ exn_str e)%string])).
Proof.
  intros Hlen Hz Hd Hne Hst Hread Hchunk He.
  unfold load_streaming, bind at 1. rewrite file_read_eq. cbn [input].
  rewrite read_bytes_header by assumption. cbn [fst snd]. rewrite Hlen.
  change (Z.of_nat 8 <? HEADER_SIZE) with false. cbv iota. rewrite Hz.
  unfold bind at 1, try_except, bind at 1, lift. rewrite Hd.
  apply String.eqb_neq in Hne. rewrite Hne.
  unfold bind at 1. rewrite Hst.
  unfold bind at 1, with_input_fuel. cbn [decompress_chunks].
  unfold bind at 1. rewrite file_read_eq. cbn [input set_input]. rewrite Hread.
  cbn [fst snd]. apply is_empty_false in Hchunk. rewrite Hchunk.
  unfold bind at 1, lift. rewrite He.
  unfold bind, warn_fallback, file_read_all. rewrite file_read_eq. reflexivity.
Qed.

(** ** The properties of the specification *)

(** C1 — Round trip.  For a serializable object (the serializer turns it into
    [p] and the deserializer turns [p] back into it), a supported algorithm
    [a] and any level [l], [loads(dumps(o, algorithm=a, level=l))] returns the
    object, and so does [load] on the file that
    [dump(o, f, algorithm=a, level=l)] wrote. *)
Theorem one_shot_roundtrip (obj : Obj pk) (dop : dump_opts) (lop : load_opts)
    (a : string) (l : Z) (strict : bool) (p : bytes) (w : world) :
  compressor_contract -> format_contract ->
  supported a = true ->
  pickle_dumps pk obj dop = Ok p -> pickle_loads pk p lop = Ok obj ->
  output w = [] ->
  (d <- dumps obj dop (Some a) (Some l) ;; loads (PyBytes d) lop strict) w
  = Some (Ok obj, w)
  /\ exists d,
      (dump obj dop (Some a) (Some l) ;;; seek0 ;;; load lop strict) w
      = Some (Ok obj, mkWorld (config w) [] [d] (warnings w)).
Proof.
  intros Hcu Hfmt Hsup Hp Hl Hout.
  assert (Heff : supported (or_str (Some a) (algorithm (config w))) = true).
  { destruct Hfmt as (_ & _ & _ & _ & Hne). now rewrite or_str_given by auto. }
  destruct (dumps_container obj dop (Some a) (Some l) p w Hcu Heff Hp)
    as [d [Hd Hcont]].
  split.
  - unfold bind. rewrite Hd, (loads_container p d lop strict w Hfmt Hcont).
    now rewrite Hl.
  - exists d. rewrite (dump_then_read _ _ _ _ _ _ _ Hout Hd).
    rewrite (load_container p _ lop strict _ _ _ Hfmt Hcont). now rewrite Hl.
Qed.

(** C2, amended — Small-payload bypass.  When the serialized form is shorter
    than [min_size], whatever algorithm and level are asked for, [dumps]
    returns the ["none"] header (byte 5 is 0) followed by the serialized
    bytes, and [dump_streaming] writes that same header first, for every
    chunk size, and then the [read(chunk_size)] slices of the serialized
    bytes; for every non-zero chunk size the file holds exactly what [dumps]
    returns. *)
Theorem small_payload_bypass (obj : Obj pk) (dop : dump_opts)
    (alg_arg : option string) (lvl_arg : option Z) (p : bytes) (w : world) :
  length (MAGIC_VERSION fmt) = 5%nat -> algorithm_id fmt "none" = 0 ->
  pickle_dumps pk obj dop = Ok p ->
  Z.of_nat (length p) < min_size (config w) ->
  nth_error (encode_header "none" 0 ++ p) 5 = Some 0
  /\ dumps obj dop alg_arg lvl_arg w = Some (Ok (encode_header "none" 0 ++ p), w)
  /\ forall chunk_size,
       dump_streaming obj dop alg_arg lvl_arg chunk_size w
       = Some (Ok tt,
               mkWorld (config w) (input w)
                 (output w
                  ++ encode_header "none" 0
                     :: split_chunks (S (length p)) chunk_size p)
                 (warnings w))
       /\ (chunk_size <> 0 ->
           concat (encode_header "none" 0
                   :: split_chunks (S (length p)) chunk_size p)
           = encode_header "none" 0 ++ p).
Proof.
  intros Hm Hnone Hp Hsmall. apply Z.ltb_lt in Hsmall.
  split; [|split].
  - destruct (encode_header_nth "none" 0 p Hm) as [H5 _]. now rewrite H5, Hnone.
  - unfold dumps, bind, lift, get_config. rewrite Hp, Hsmall. reflexivity.
  - intros chunk_size. split.
    + unfold dump_streaming, bind at 1, get_config. unfold bind at 1, lift.
      rewrite Hp, Hsmall. cbn [orb].
      unfold bind, file_write. rewrite write_chunks_spec by (cbn; lia). cbn.
      now rewrite <- app_assoc.
    + intros Hn. cbn [concat].
      now rewrite (split_chunks_concat _ _ _ Hn (Nat.lt_succ_diag_r _)).
Qed.

(** C3 — What [load] does on the failing input: in non-strict mode, when the
    header decodes to a compression algorithm and the decompressor rejects
    the payload, the payload has already been read, so the retry hands the
    deserializer the eight header bytes alone and not the whole input. *)
Theorem load_fallback_after_decompress_error (header rest : bytes)
    (lop : load_opts) (e : exn) (v l r : Z) (alg : string)
    (cfg : ZpickleConfig) (out : list bytes) (ws : list warning) :
  length header = 8%nat ->
  is_zpickle_data header = true ->
  decode_header header false = Ok (v, alg, l, r) -> alg <> "none" ->
  decompress cu rest alg = Raise e ->
  load lop false (mkWorld cfg (header ++ rest) out ws)
  = Some (pickle_loads pk header lop,
          mkWorld cfg [] out
            (ws ++ [RuntimeWarning
                      ("Error processing zpickle data, falling back to regular pickle: "
                       ++ exn_str e)%string])).
Proof.
  intros Hlen Hz Hd Hne Hc. unfold load, bind at 1. rewrite file_read_eq.
  cbn [input]. rewrite read_bytes_header by assumption. cbn [fst snd]. rewrite Hz.
  unfold bind at 1, try_except, bind at 1, lift. rewrite Hd.
  unfold bind at 1, file_read_all. rewrite file_read_eq. cbn [input set_input].
  rewrite read_bytes_all. cbn [fst snd].
  apply String.eqb_neq in Hne. rewrite Hne, Hc.
  unfold bind, warn_fallback. rewrite file_read_eq. cbn.
  now rewrite app_nil_r.
Qed.

(** C4 — What [dumps] does on the failing input: an explicit [level=0] is
    falsy, so the payload is compressed at the level of the configuration
    and the header records that level. *)
Theorem explicit_level_zero_uses_config (obj : Obj pk) (dop : dump_opts)
    (a : string) (p c : bytes) (w : world) :
  pickle_dumps pk obj dop = Ok p ->
  min_size (config w) <= Z.of_nat (length p) ->
  a <> "" -> a <> "none" ->
  compress cu p a (level (config w)) = Ok c ->
  dumps obj dop (Some a) (Some 0) w
  = Some (Ok (encode_header a (level (config w)) ++ c), w).
Proof.
  intros Hp Hbig Ha Hnone Hc. unfold dumps, bind, lift, get_config.
  rewrite Hp, or_str_given, or_int_zero by assumption.
  apply Z.ltb_ge in Hbig. apply String.eqb_neq in Hnone.
  rewrite Hbig, Hnone, Hc. reflexivity.
Qed.

(** C5 — Cross-mode equivalence.  For a serializable object and a supported
    algorithm in effect, [load] and [load_streaming] return the same object
    on the file written by [dump], and again on the file written by
    [dump_streaming]. *)
Theorem cross_mode_equivalence (obj : Obj pk) (dop : dump_opts) (lop : load_opts)
    (alg_arg : option string) (lvl_arg : option Z) (strict : bool)
    (p : bytes) (w : world) :
  compressor_contract -> format_contract ->
  supported (or_str alg_arg (algorithm (config w))) = true ->
  pickle_dumps pk obj dop = Ok p -> pickle_loads pk p lop = Ok obj ->
  output w = [] ->
  (exists w1,
     (dump obj dop alg_arg lvl_arg ;;; seek0 ;;; load lop strict) w
     = Some (Ok obj, w1)
     /\ (dump obj dop alg_arg lvl_arg ;;; seek0 ;;;
         load_streaming lop strict DEFAULT_CHUNK_SIZE) w
        = Some (Ok obj, w1))
  /\ (exists w2,
        (dump_streaming obj dop alg_arg lvl_arg DEFAULT_CHUNK_SIZE ;;; seek0 ;;;
         load_streaming lop strict DEFAULT_CHUNK_SIZE) w
        = Some (Ok obj, w2)
        /\ (dump_streaming obj dop alg_arg lvl_arg DEFAULT_CHUNK_SIZE ;;; seek0 ;;;
            load lop strict) w
           = Some (Ok obj, w2)).
Proof.
  intros Hcu Hfmt Hsup Hp Hl Hout.
  assert (Hchunk : DEFAULT_CHUNK_SIZE <> 0) by discriminate.
  split.
  - destruct (dumps_container obj dop alg_arg lvl_arg p w Hcu Hsup Hp)
      as [d [Hd Hcont]].
    eexists. rewrite !(dump_then_read _ _ _ _ _ _ _ Hout Hd).
    rewrite (load_container p _ lop strict _ _ _ Hfmt Hcont).
    rewrite (load_streaming_container p _ lop strict _ _ _ _ Hfmt Hcont Hchunk).
    rewrite Hl. split; reflexivity.
  - destruct (dump_streaming_container obj dop alg_arg lvl_arg _ p w Hcu Hsup Hp Hchunk)
      as [written [Hrun Hcont]].
    eexists. rewrite !(dump_streaming_then_read _ _ _ _ _ _ _ _ Hout Hrun).
    rewrite (load_container p _ lop strict _ _ _ Hfmt Hcont).
    rewrite (load_streaming_container p _ lop strict _ _ _ _ Hfmt Hcont Hchunk).
    rewrite Hl. split; reflexivity.
Qed.

(** C6 — Foreign data.  Bytes produced by the serializer alone, whose first
    eight bytes are not a container header, are handed whole to the
    deserializer by [loads], [load] and [load_streaming]: the bytes read for
    detection are kept, and the original object comes back. *)
Theorem foreign_data_is_deserialized (obj : Obj pk) (dop : dump_opts)
    (lop : load_opts) (strict : bool) (chunk_size : Z) (data : bytes)
    (w : world) (cfg : ZpickleConfig) (out : list bytes) (ws : list warning) :
  pickle_dumps pk obj dop = Ok data -> pickle_loads pk data lop = Ok obj ->
  is_zpickle_data (firstn 8 data) = false ->
  loads (PyBytes data) lop strict w = Some (Ok obj, w)
  /\ load lop strict (mkWorld cfg data out ws)
     = Some (Ok obj, mkWorld cfg [] out ws)
  /\ load_streaming lop strict chunk_size (mkWorld cfg data out ws)
     = Some (Ok obj, mkWorld cfg [] out ws).
Proof.
  intros _ Hl Hforeign. rewrite is_zpickle_data_prefix in Hforeign.
  rewrite loads_foreign, load_foreign, load_streaming_foreign by assumption.
  rewrite Hl. auto.
Qed.

(** C7 — A stream of fewer than eight bytes.  [load_streaming] raises no
    format error of its own: it hands all the bytes of the stream to the
    deserializer and returns whatever the deserializer returns, in strict
    and in non-strict mode, without a warning. *)
Theorem short_stream_is_foreign (data : bytes) (lop : load_opts) (strict : bool)
    (chunk_size : Z) (cfg : ZpickleConfig) (out : list bytes) (ws : list warning) :
  (length data < 8)%nat ->
  load_streaming lop strict chunk_size (mkWorld cfg data out ws)
  = Some (pickle_loads pk data lop, mkWorld cfg [] out ws).
Proof.
  intros H. now apply load_streaming_short.
Qed.

(** C8, amended — Chunk-size independence.  For a serializable object and a
    supported algorithm in effect, the round trip through [dump_streaming]
    and [load_streaming] returns the object for every positive chunk size
    on the write side and every positive chunk size on the read side; two
    such choices therefore give the same result. *)
Theorem chunk_size_independence (obj : Obj pk) (dop : dump_opts) (lop : load_opts)
    (alg_arg : option string) (lvl_arg : option Z) (strict : bool)
    (cw cr cw' cr' : Z) (p : bytes) (w : world) :
  compressor_contract -> format_contract ->
  supported (or_str alg_arg (algorithm (config w))) = true ->
  pickle_dumps pk obj dop = Ok p -> pickle_loads pk p lop = Ok obj ->
  output w = [] ->
  0 < cw -> 0 < cr -> 0 < cw' -> 0 < cr' ->
  option_map fst (streaming_roundtrip obj dop lop alg_arg lvl_arg strict cw cr w)
  = Some (Ok obj)
  /\ option_map fst (streaming_roundtrip obj dop lop alg_arg lvl_arg strict cw cr w)
     = option_map fst
         (streaming_roundtrip obj dop lop alg_arg lvl_arg strict cw' cr' w).
Proof.
  intros Hcu Hfmt Hsup Hp Hl Hout Hcw Hcr Hcw' Hcr'.
  assert (Hall : forall a b, 0 < a -> 0 < b ->
            option_map fst
              (streaming_roundtrip obj dop lop alg_arg lvl_arg strict a b w)
            = Some (Ok obj)).
  { intros a b Ha Hb. unfold streaming_roundtrip.
    destruct (dump_streaming_container obj dop alg_arg lvl_arg a p w Hcu Hsup Hp
                ltac:(lia)) as [written [Hrun Hcont]].
    rewrite (dump_streaming_then_read _ _ _ _ _ _ _ _ Hout Hrun).
    rewrite (load_streaming_container p _ lop strict b _ _ _ Hfmt Hcont) by lia.
    now rewrite Hl. }
  split; [|rewrite !Hall by assumption]; auto.
Qed.

(** C9 — [loads] on a value that is neither [bytes] nor [bytearray] raises
    [TypeError] at once: whatever the collaborators are, nothing is decoded,
    decompressed or deserialized, and the world is left as it was. *)
Theorem loads_rejects_non_bytes (ty : string) (lop : load_opts) (strict : bool)
    (w : world) :
  loads (PyOther ty) lop strict w
  = Some (Raise (TypeError
                   ("A bytes-like object is required, not '" ++ ty ++ "'")%string),
          w).
Proof. reflexivity. Qed.

(** C10 — [dump] writes what [dumps] returns.  [dumps] always returns and
    leaves the world alone; when it returns bytes [d], [dump] with the same
    arguments performs the single write of [d], so the file grows by exactly
    [d]; when it raises, [dump] raises the same exception and writes nothing. *)
Theorem dump_writes_what_dumps_returns (obj : Obj pk) (dop : dump_opts)
    (alg_arg : option string) (lvl_arg : option Z) (w : world) :
  exists r,
    dumps obj dop alg_arg lvl_arg w = Some (r, w)
    /\ match r with
       | Ok d =>
           dump obj dop alg_arg lvl_arg w
           = Some (Ok tt, mkWorld (config w) (input w) (output w ++ [d]) (warnings w))
           /\ getvalue (mkWorld (config w) (input w) (output w ++ [d]) (warnings w))
              = getvalue w ++ d
       | Raise e => dump obj dop alg_arg lvl_arg w = Some (Raise e, w)
       end.
Proof.
  unfold dump, dumps, bind, lift, get_config, ret, file_write, getvalue.
  destruct (pickle_dumps pk obj dop) as [p|e]; [|eexists; split; reflexivity].
  destruct ((Z.of_nat (length p) <? min_size (config w))
            || (or_str alg_arg (algorithm (config w)) =? "none")%string).
  - eexists. split; [reflexivity|]. cbn. split; [reflexivity|].
    rewrite concat_app. cbn. now rewrite app_nil_r.
  - destruct (compress cu p _ _) as [c|e]; eexists; (split; [reflexivity|]); cbn.
    + split; [reflexivity|]. rewrite concat_app. cbn. now rewrite app_nil_r.
    + reflexivity.
Qed.


(** ** What the calls leave alone *)

Lemma only_writes_refl (w : world) : only_writes w w.
Proof.
  unfold only_writes. repeat split. exists []. now rewrite app_nil_r.
Qed.

Lemma only_writes_trans (w1 w2 w3 : world) :
  only_writes w1 w2 -> only_writes w2 w3 -> only_writes w1 w3.
Proof.
  intros (Hc & Hi & Hw & out1 & Ho) (Hc' & Hi' & Hw' & out2 & Ho').
  unfold only_writes. repeat split; try congruence.
  exists (out1 ++ out2). now rewrite Ho', Ho, app_assoc.
Qed.

Lemma only_reads_refl (w : world) : only_reads w w.
Proof.
  unfold only_reads. repeat split. now exists [].
Qed.

Lemma only_reads_trans (w1 w2 w3 : world) :
  only_reads w1 w2 -> only_reads w2 w3 -> only_reads w1 w3.
Proof.
  intros (Hc & Ho & Hw & c1 & Hi) (Hc' & Ho' & Hw' & c2 & Hi').
  unfold only_reads. repeat split; try congruence.
  exists (c1 ++ c2). now rewrite Hi, Hi', app_assoc.
Qed.

Lemma only_reads_then_warns (w1 w2 w3 : world) :
  only_reads w1 w2 -> reads_and_warns_once w2 w3 -> reads_and_warns_once w1 w3.
Proof.
  intros (Hc & Ho & Hw & c1 & Hi) (Hc' & Ho' & Hw' & c2 & Hi').
  unfold reads_and_warns_once. repeat split; try congruence.
  - rewrite <- Hw. exact Hw'.
  - exists (c1 ++ c2). now rewrite Hi, Hi', app_assoc.
Qed.

Lemma only_reads_may_warn (w1 w2 : world) :
  only_reads w1 w2 -> reads_and_warns_once w1 w2.
Proof.
  intros (Hc & Ho & Hw & c1 & Hi). unfold reads_and_warns_once. eauto 8.
Qed.

Lemma respects_bind {A B : Type} (R1 R2 R3 : world -> world -> Prop)
    (m : M A) (f : A -> M B) :
  (forall w1 w2, R1 w1 w2 -> R3 w1 w2) ->
  (forall w1 w2 w3, R1 w1 w2 -> R2 w2 w3 -> R3 w1 w3) ->
  respects R1 m -> (forall a, respects R2 (f a)) -> respects R3 (bind m f).
Proof.
  intros Hsub Hcomp Hm Hf w r w' H. unfold bind in H.
  destruct (m w) as [[[a|e] w1]|] eqn:Hmw; [| |discriminate].
  - eapply Hcomp; [eapply Hm | eapply Hf]; eauto.
  - injection H as <- <-. eapply Hsub, Hm; eauto.
Qed.

Lemma respects_try {A : Type} (R1 R2 R3 : world -> world -> Prop)
    (m : M A) (h : exn -> M A) :
  (forall w1 w2, R1 w1 w2 -> R3 w1 w2) ->
  (forall w1 w2 w3, R1 w1 w2 -> R2 w2 w3 -> R3 w1 w3) ->
  respects R1 m -> (forall e, respects R2 (h e)) -> respects R3 (try_except m h).
Proof.
  intros Hsub Hcomp Hm Hh w r w' H. unfold try_except in H.
  destruct (m w) as [[[a|e] w1]|] eqn:Hmw; [| |discriminate].
  - injection H as <- <-. eapply Hsub, Hm; eauto.
  - eapply Hcomp; [eapply Hm | eapply Hh]; eauto.
Qed.

Lemma respects_lift {A : Type} (R : world -> world -> Prop) (x : result A) :
  (forall w, R w w) -> respects R (lift x).
Proof.
  intros Hrefl w r w' H. injection H as <- <-. apply Hrefl.
Qed.

Lemma respects_file_write (b : bytes) : respects only_writes (file_write b).
Proof.
  intros w r w' H. injection H as <- <-.
  unfold only_writes. cbn. repeat split. now exists [b].
Qed.

Lemma respects_file_read (n : Z) : respects only_reads (file_read n).
Proof.
  intros w r w' H. rewrite file_read_eq in H. injection H as <- <-.
  unfold only_reads. cbn. repeat split.
  exists (fst (read_bytes n (input w))). symmetry. apply read_bytes_app.
Qed.

Ltac writes_step :=
  first
    [ apply respects_file_write
    | apply (respects_lift only_writes), only_writes_refl
    | apply (respects_bind only_writes only_writes only_writes);
      [ auto | apply only_writes_trans | | intros ? ] ].

Ltac reads_step :=
  first
    [ apply respects_file_read
    | apply (respects_lift only_reads), only_reads_refl
    | apply (respects_bind only_reads only_reads only_reads);
      [ auto | apply only_reads_trans | | intros ? ] ].

Lemma write_chunks_only_writes (fuel : nat) (n : Z) (buf : bytes) :
  respects only_writes (write_chunks fuel n buf).
Proof.
  revert buf. induction fuel as [|fuel IH]; intros buf; cbn.
  - intros w r w' H. discriminate.
  - destruct (read_bytes n buf) as [chunk rest].
    destruct (is_empty chunk).
    + apply (respects_lift only_writes (Ok tt)), only_writes_refl.
    + repeat writes_step. apply IH.
Qed.

Lemma compress_chunks_only_writes (fuel : nat) (n : Z) (buf : bytes)
    (st : CStream cu) :
  respects only_writes (compress_chunks fuel n buf st).
Proof.
  revert buf st. induction fuel as [|fuel IH]; intros buf st; cbn.
  - intros w r w' H. discriminate.
  - destruct (read_bytes n buf) as [chunk rest].
    destruct (is_empty chunk).
    + apply (respects_lift only_writes (Ok st)), only_writes_refl.
    + writes_step; [writes_step|]. destruct a as [out st1].
      writes_step; [|apply IH].
      destruct (is_empty out).
      * apply (respects_lift only_writes (Ok tt)), only_writes_refl.
      * apply respects_file_write.
Qed.

Lemma read_chunks_only_reads (fuel : nat) (n : Z) (acc : bytes) :
  respects only_reads (read_chunks fuel n acc).
Proof.
  revert acc. induction fuel as [|fuel IH]; intros acc; cbn.
  - intros w r w' H. discriminate.
  - reads_step; [reads_step|]. destruct (is_empty a).
    + apply (respects_lift only_reads (Ok acc)), only_reads_refl.
    + apply IH.
Qed.

Lemma decompress_chunks_only_reads (fuel : nat) (n : Z) (st : DStream cu)
    (acc : bytes) :
  respects only_reads (decompress_chunks fuel n st acc).
Proof.
  revert st acc. induction fuel as [|fuel IH]; intros st acc; cbn.
  - intros w r w' H. discriminate.
  - reads_step; [reads_step|]. destruct (is_empty a).
    + apply (respects_lift only_reads (Ok (st, acc))), only_reads_refl.
    + reads_step; [reads_step|]. destruct a0 as [out st1]. apply IH.
Qed.

Lemma with_input_fuel_respects {A : Type} (R : world -> world -> Prop)
    (f : nat -> M A) :
  (forall fuel, respects R (f fuel)) -> respects R (with_input_fuel f).
Proof.
  intros Hf w r w' H. unfold with_input_fuel in H. eapply Hf; eauto.
Qed.


(** X1 — The writers touch nothing but the file they write.  [dumps] leaves
    the whole world as it was whatever it returns or raises; [dump] and
    [dump_streaming] only append to the file: the configuration store, the
    warnings and what was already in the file are kept, even when the call
    ends in an exception. *)
Theorem writers_only_write (obj : Obj pk) (dop : dump_opts)
    (alg_arg : option string) (lvl_arg : option Z) (chunk_size : Z) :
  respects eq (dumps obj dop alg_arg lvl_arg)
  /\ respects only_writes (dump obj dop alg_arg lvl_arg)
  /\ respects only_writes (dump_streaming obj dop alg_arg lvl_arg chunk_size).
Proof.
  assert (Hdumps : respects eq (dumps obj dop alg_arg lvl_arg)).
  { intros w r w' H. unfold dumps, bind, lift, get_config, ret in H.
    destruct (pickle_dumps pk obj dop) as [p|e]; [|now injection H].
    destruct ((Z.of_nat (length p) <? min_size (config w))
              || (or_str alg_arg (algorithm (config w)) =? "none")%string);
      [now injection H|].
    destruct (compress cu p _ _); now injection H. }
  split; [exact Hdumps|]. split.
  - unfold dump.
    apply (respects_bind eq only_writes only_writes).
    + intros w1 w2 <-. apply only_writes_refl.
    + now intros w1 w2 w3 <-.
    + exact Hdumps.
    + intros d. apply respects_file_write.
  - unfold dump_streaming.
    apply (respects_bind eq only_writes only_writes).
    + intros w1 w2 <-. apply only_writes_refl.
    + now intros w1 w2 w3 <-.
    + intros w r w' H. now injection H.
    + intros cfg. writes_step; [writes_step|].
      destruct ((Z.of_nat (length a) <? min_size cfg)
                || (or_str alg_arg (algorithm cfg) =? "none")%string).
      * writes_step; [writes_step|]. apply write_chunks_only_writes.
      * writes_step; [writes_step|].
        writes_step; [writes_step|].
        writes_step; [apply compress_chunks_only_writes|].
        writes_step; [writes_step|].
        destruct (is_empty a3); writes_step.
Qed.

Lemma loads_keeps_input_and_files (data : pyval) (lop : load_opts) (strict : bool) :
  respects (if strict then only_reads else reads_and_warns_once)
    (loads data lop strict).
Proof.
  assert (Hwarn : forall e b, respects reads_and_warns_once
                                (warn_fallback e ;;; ret (A := bytes) b)).
  { intros e b w r w' H. injection H as <- <-.
    unfold reads_and_warns_once. cbn. repeat split; eauto. now exists []. }
  assert (Hbody : forall b s, respects only_reads
            ('(_, algorithm, _, _) <- lift (decode_header b s) ;;
             (let compressed_data := skipn (Z.to_nat HEADER_SIZE) b in
              if (algorithm =? "none")%string then ret compressed_data
              else lift (decompress cu compressed_data algorithm)))).
  { intros b s. reads_step; [reads_step|]. destruct a as [[[v alg] l] r].
    destruct (alg =? "none")%string;
      [apply (respects_lift only_reads (Ok _)) | apply respects_lift];
      apply only_reads_refl. }
  assert (Hbytes : forall b, respects (if strict then only_reads else reads_and_warns_once)
                               (loads (PyBytes b) lop strict)).
  { intros b. unfold loads. destruct strict.
    - reads_step; [|reads_step].
      destruct (is_zpickle_data b);
        [|apply (respects_lift only_reads (Ok _)), only_reads_refl].
      apply (respects_try only_reads only_reads only_reads);
        [auto | apply only_reads_trans | apply Hbody | intros e].
      apply (respects_lift only_reads (Raise e)), only_reads_refl.
    - apply (respects_bind reads_and_warns_once only_reads reads_and_warns_once).
      + auto.
      + intros w1 w2 w3 H12 (Hc & Ho & Hw & c & Hi).
        destruct H12 as (Hc' & Ho' & Hw' & c' & Hi').
        unfold reads_and_warns_once. repeat split; try congruence.
        * rewrite Hw. exact Hw'.
        * exists (c' ++ c). now rewrite Hi', Hi, app_assoc.
      + destruct (is_zpickle_data b).
        * apply (respects_try only_reads reads_and_warns_once reads_and_warns_once);
            [apply only_reads_may_warn | apply only_reads_then_warns
            | apply Hbody | intros e; apply Hwarn].
        * intros w r w' H. injection H as <- <-.
          apply only_reads_may_warn, only_reads_refl.
      + intros a. apply respects_lift, only_reads_refl. }
  destruct data as [b|b|ty]; [apply Hbytes | apply Hbytes |].
  intros w r w' H. injection H as <- <-.
  destruct strict; [|apply only_reads_may_warn]; apply only_reads_refl.
Qed.


Lemma warns_then_reads (w1 w2 w3 : world) :
  reads_and_warns_once w1 w2 -> only_reads w2 w3 -> reads_and_warns_once w1 w3.
Proof.
  intros (Hc' & Ho' & Hw' & c' & Hi') (Hc & Ho & Hw & c & Hi).
  unfold reads_and_warns_once. repeat split; try congruence.
  - rewrite Hw. exact Hw'.
  - exists (c' ++ c). now rewrite Hi', Hi, app_assoc.
Qed.

Lemma fallback_handler_respects (header : bytes) (e : exn) :
  respects reads_and_warns_once
    (warn_fallback e ;;; rest <- file_read_all ;; ret (header ++ rest)).
Proof.
  intros w r w' H. unfold bind, warn_fallback, file_read_all in H.
  rewrite file_read_eq in H. injection H as <- <-.
  unfold reads_and_warns_once. cbn. repeat split; eauto.
  exists (input w). now rewrite app_nil_r.
Qed.

Ltac guarded_reader body_tac :=
  match goal with
  | |- respects only_reads (try_except _ _) =>
      apply (respects_try only_reads only_reads only_reads);
      [ auto | apply only_reads_trans | body_tac
      | intros e; apply (respects_lift only_reads (Raise e)), only_reads_refl ]
  | |- respects reads_and_warns_once (try_except _ _) =>
      apply (respects_try only_reads reads_and_warns_once reads_and_warns_once);
      [ apply only_reads_may_warn | apply only_reads_then_warns | body_tac
      | intros e; apply fallback_handler_respects ]
  end.

Lemma load_keeps_files (lop : load_opts) (strict : bool) :
  respects (if strict then only_reads else reads_and_warns_once)
    (load lop strict).
Proof.
  assert (Hbody : forall header s, respects only_reads
            ('(_, algorithm, _, _) <- lift (decode_header header s) ;;
             compressed_data <- file_read_all ;;
             if (algorithm =? "none")%string then ret compressed_data
             else lift (decompress cu compressed_data algorithm))).
  { intros header s. reads_step; [reads_step|]. destruct a as [[[v alg] l] r].
    reads_step; [apply respects_file_read|].
    destruct (alg =? "none")%string;
      [apply (respects_lift only_reads (Ok _)) | apply respects_lift];
      apply only_reads_refl. }
  assert (Hplain : forall header, respects only_reads
            (rest <- file_read_all ;; ret (header ++ rest))).
  { intros header. reads_step; [apply respects_file_read|].
    apply (respects_lift only_reads (Ok _)), only_reads_refl. }
  unfold load. destruct strict.
  - reads_step; [reads_step|]. reads_step; [|reads_step].
    destruct (is_zpickle_data a); [|apply Hplain].
    guarded_reader ltac:(apply Hbody).
  - apply (respects_bind only_reads reads_and_warns_once reads_and_warns_once);
      [apply only_reads_may_warn | apply only_reads_then_warns
      | apply respects_file_read | intros header].
    apply (respects_bind reads_and_warns_once only_reads reads_and_warns_once);
      [auto | apply warns_then_reads | | intros a; apply respects_lift, only_reads_refl].
    destruct (is_zpickle_data header).
    + guarded_reader ltac:(apply Hbody).
    + intros w r w' H. apply only_reads_may_warn. eapply Hplain; eauto.
Qed.

Lemma load_streaming_keeps_files (lop : load_opts) (strict : bool) (chunk_size : Z) :
  respects (if strict then only_reads else reads_and_warns_once)
    (load_streaming lop strict chunk_size).
Proof.
  assert (Hbody : forall header s, respects only_reads
            ('(_, algorithm, _, _) <- lift (decode_header header s) ;;
             if (algorithm =? "none")%string then
               with_input_fuel (fun fuel => read_chunks fuel chunk_size [])
             else
               decompressor <- lift (DecompressStream cu algorithm) ;;
               '(decompressor', pickled_buffer) <-
                  with_input_fuel
                    (fun fuel => decompress_chunks fuel chunk_size decompressor []) ;;
               final_chunk <- lift (ds_finish cu decompressor') ;;
               ret (if is_empty final_chunk then pickled_buffer
                    else pickled_buffer ++ final_chunk))).
  { intros header s. reads_step; [reads_step|]. destruct a as [[[v alg] l] r].
    destruct (alg =? "none")%string.
    - apply with_input_fuel_respects. intros fuel. apply read_chunks_only_reads.
    - reads_step; [reads_step|].
      reads_step;
        [apply with_input_fuel_respects; intros fuel;
         apply decompress_chunks_only_reads|].
      destruct a0 as [st' buf]. reads_step; [reads_step|].
      apply (respects_lift only_reads (Ok _)), only_reads_refl. }
  assert (Hplain : forall header, respects only_reads
            (rest <- file_read_all ;; ret (header ++ rest))).
  { intros header. reads_step; [apply respects_file_read|].
    apply (respects_lift only_reads (Ok _)), only_reads_refl. }
  assert (Hshort : forall header, respects only_reads
            (rest <- file_read_all ;; lift (pickle_loads pk (header ++ rest) lop))).
  { intros header. reads_step; [apply respects_file_read|]. reads_step. }
  unfold load_streaming. destruct strict.
  - reads_step; [reads_step|].
    destruct (Z.of_nat (length a) <? HEADER_SIZE); [apply Hshort|].
    reads_step; [|reads_step].
    destruct (is_zpickle_data a); [|apply Hplain].
    guarded_reader ltac:(apply Hbody).
  - apply (respects_bind only_reads reads_and_warns_once reads_and_warns_once);
      [apply only_reads_may_warn | apply only_reads_then_warns
      | apply respects_file_read | intros header].
    destruct (Z.of_nat (length header) <? HEADER_SIZE).
    { intros w r w' H. apply only_reads_may_warn. eapply Hshort; eauto. }
    apply (respects_bind reads_and_warns_once only_reads reads_and_warns_once);
      [auto | apply warns_then_reads | | intros a; apply respects_lift, only_reads_refl].
    destruct (is_zpickle_data header).
    + guarded_reader ltac:(apply Hbody).
    + intros w r w' H. apply only_reads_may_warn. eapply Hplain; eauto.
Qed.

(** X2 — The readers touch nothing but the file they read and the warnings.
    Whatever [loads], [load] and [load_streaming] return or raise, the
    configuration store and the written file are as before and the stream
    has only moved forward; in strict mode no warning is emitted, and in
    non-strict mode at most one. *)
Theorem readers_only_read (data : pyval) (lop : load_opts) (chunk_size : Z) :
  (respects only_reads (loads data lop true)
   /\ respects only_reads (load lop true)
   /\ respects only_reads (load_streaming lop true chunk_size))
  /\ (respects reads_and_warns_once (loads data lop false)
      /\ respects reads_and_warns_once (load lop false)
      /\ respects reads_and_warns_once (load_streaming lop false chunk_size)).
Proof.
  split; (split; [|split]).
  - apply (loads_keeps_input_and_files data lop true).
  - apply (load_keeps_files lop true).
  - apply (load_streaming_keeps_files lop true chunk_size).
  - apply (loads_keeps_input_and_files data lop false).
  - apply (load_keeps_files lop false).
  - apply (load_streaming_keeps_files lop false chunk_size).
Qed.


(** ** The loops come to an end *)

Lemma terminates_bind {A B : Type} (m : M A) (f : A -> M B) :
  terminates m -> (forall a, terminates (f a)) -> terminates (bind m f).
Proof.
  intros Hm Hf w. unfold bind.
  destruct (Hm w) as ([a|e] & w1 & ->); [apply Hf | eauto].
Qed.

Lemma terminates_try {A : Type} (m : M A) (h : exn -> M A) :
  terminates m -> (forall e, terminates (h e)) -> terminates (try_except m h).
Proof.
  intros Hm Hh w. unfold try_except.
  destruct (Hm w) as ([a|e] & w1 & ->); [eauto | apply Hh].
Qed.

Lemma terminates_lift {A : Type} (x : result A) : terminates (lift x).
Proof. intros w. unfold lift. eauto. Qed.

Lemma terminates_file_read (n : Z) : terminates (file_read n).
Proof. intros w. rewrite file_read_eq. eauto. Qed.

Lemma terminates_file_write (b : bytes) : terminates (file_write b).
Proof. intros w. unfold file_write. eauto. Qed.

Lemma terminates_with_input_fuel {A : Type} (f : nat -> M A) :
  (forall fuel w, (length (input w) < fuel)%nat -> exists r w', f fuel w = Some (r, w')) ->
  terminates (with_input_fuel f).
Proof.
  intros Hf w. unfold with_input_fuel. apply Hf. lia.
Qed.

Lemma compress_chunks_terminates (fuel : nat) (n : Z) (buf : bytes)
    (st : CStream cu) :
  (length buf < fuel)%nat -> terminates (compress_chunks fuel n buf st).
Proof.
  revert buf st. induction fuel as [|fuel IH]; intros buf st Hlen; [lia|].
  cbn. pose proof (read_bytes_shrinks n buf) as Hshr.
  destruct (read_bytes n buf) as [chunk rest]. cbn [fst snd] in Hshr.
  destruct (is_empty chunk) eqn:He; [apply (terminates_lift (Ok st))|].
  apply is_empty_false in He. specialize (Hshr He).
  apply terminates_bind; [apply terminates_lift|]. intros [out st1].
  apply terminates_bind; [|intros _; apply IH; lia].
  destruct (is_empty out);
    [apply (terminates_lift (Ok tt)) | apply terminates_file_write].
Qed.

Lemma read_chunks_terminates (fuel : nat) (n : Z) (acc : bytes) (w : world) :
  (length (input w) < fuel)%nat ->
  exists r w', read_chunks fuel n acc w = Some (r, w').
Proof.
  revert acc w. induction fuel as [|fuel IH]; intros acc w Hlen; [lia|].
  cbn. unfold bind at 1. rewrite file_read_eq.
  pose proof (read_bytes_shrinks n (input w)) as Hshr.
  destruct (read_bytes n (input w)) as [chunk rest]. cbn [fst snd] in *.
  destruct (is_empty chunk) eqn:He; [unfold ret; eauto|].
  apply is_empty_false in He. specialize (Hshr He).
  apply IH. cbn. lia.
Qed.

Lemma decompress_chunks_terminates (fuel : nat) (n : Z) (st : DStream cu)
    (acc : bytes) (w : world) :
  (length (input w) < fuel)%nat ->
  exists r w', decompress_chunks fuel n st acc w = Some (r, w').
Proof.
  revert st acc w. induction fuel as [|fuel IH]; intros st acc w Hlen; [lia|].
  cbn. unfold bind at 1. rewrite file_read_eq.
  pose proof (read_bytes_shrinks n (input w)) as Hshr.
  destruct (read_bytes n (input w)) as [chunk rest]. cbn [fst snd] in *.
  destruct (is_empty chunk) eqn:He; [unfold ret; eauto|].
  apply is_empty_false in He. specialize (Hshr He).
  unfold bind, lift. destruct (ds_decompress cu st chunk) as [[out st1]|e]; [|eauto].
  apply IH. cbn. lia.
Qed.

(** X3 — The streaming calls always come back.  For every object, every
    stream, every chunk size (zero and negative ones included) and every
    behaviour of the collaborators, the [while True] loops of
    [dump_streaming] and [load_streaming] stop: each round that does not
    break has taken at least one byte off a finite buffer. *)
Theorem streaming_calls_terminate (obj : Obj pk) (dop : dump_opts)
    (alg_arg : option string) (lvl_arg : option Z) (lop : load_opts)
    (strict : bool) (chunk_size : Z) :
  terminates (dump_streaming obj dop alg_arg lvl_arg chunk_size)
  /\ terminates (load_streaming lop strict chunk_size).
Proof.
  split.
  - unfold dump_streaming.
    apply terminates_bind; [intros w; unfold get_config; eauto|]. intros cfg.
    apply terminates_bind; [apply terminates_lift|]. intros p.
    destruct ((Z.of_nat (length p) <? min_size cfg)
              || (or_str alg_arg (algorithm cfg) =? "none")%string).
    + apply terminates_bind; [apply terminates_file_write|]. intros _ w.
      rewrite write_chunks_spec by lia. eauto.
    + apply terminates_bind; [apply terminates_file_write|]. intros _.
      apply terminates_bind; [apply terminates_lift|]. intros st.
      apply terminates_bind; [apply compress_chunks_terminates; lia|]. intros st'.
      apply terminates_bind; [apply terminates_lift|]. intros fin.
      destruct (is_empty fin);
        [apply (terminates_lift (Ok tt)) | apply terminates_file_write].
  - assert (Hplain : forall header : bytes,
              terminates (rest <- file_read_all ;; ret (header ++ rest))).
    { intros header. apply terminates_bind; [apply terminates_file_read|].
      intros rest. apply (terminates_lift (Ok _)). }
    unfold load_streaming.
    apply terminates_bind; [apply terminates_file_read|]. intros header.
    destruct (Z.of_nat (length header) <? HEADER_SIZE).
    { apply terminates_bind; [apply terminates_file_read|].
      intros rest. apply terminates_lift. }
    apply terminates_bind; [|intros p; apply terminates_lift].
    destruct (is_zpickle_data header); [|apply Hplain].
    apply terminates_try.
    + apply terminates_bind; [apply terminates_lift|]. intros [[[v alg] l] r].
      destruct (alg =? "none")%string.
      * apply terminates_with_input_fuel. intros fuel w.
        apply read_chunks_terminates.
      * apply terminates_bind; [apply terminates_lift|]. intros st.
        apply terminates_bind.
        { apply terminates_with_input_fuel. intros fuel w.
          apply decompress_chunks_terminates. }
        intros [st' buf].
        apply terminates_bind; [apply terminates_lift|]. intros fin.
        apply (terminates_lift (Ok _)).
    + intros e. destruct strict; [apply (terminates_lift (Raise e))|].
      apply terminates_bind; [intros w; unfold warn_fallback; eauto|].
      intros _. apply Hplain.
Qed.


(** ** More on the writers *)

(** X4 — The algorithm ["none"] skips compression at every size.  When the
    algorithm in effect (the argument, or else the configured one) is
    ["none"], [dumps] returns the ["none"] header followed by the serialized
    bytes however long they are, and [dump_streaming] writes that header and
    then the serialized bytes in [read(chunk_size)] slices; the compressor is
    not consulted. *)
Theorem none_algorithm_skips_compression (obj : Obj pk) (dop : dump_opts)
    (alg_arg : option string) (lvl_arg : option Z) (p : bytes) (w : world) :
  or_str alg_arg (algorithm (config w)) = "none" ->
  pickle_dumps pk obj dop = Ok p ->
  dumps obj dop alg_arg lvl_arg w = Some (Ok (encode_header "none" 0 ++ p), w)
  /\ forall chunk_size,
       dump_streaming obj dop alg_arg lvl_arg chunk_size w
       = Some (Ok tt,
               mkWorld (config w) (input w)
                 (output w
                  ++ encode_header "none" 0
                     :: split_chunks (S (length p)) chunk_size p)
                 (warnings w))
       /\ (chunk_size <> 0 ->
           concat (split_chunks (S (length p)) chunk_size p) = p).
Proof.
  intros Hnone Hp. split.
  - unfold dumps, bind, lift, get_config. rewrite Hp, Hnone.
    cbn [String.eqb Ascii.eqb Bool.eqb]. now rewrite orb_true_r.
  - intros chunk_size. split.
    + unfold dump_streaming, bind at 1, get_config. unfold bind at 1, lift.
      rewrite Hp, Hnone. cbn [String.eqb Ascii.eqb Bool.eqb]. rewrite orb_true_r.
      unfold bind, file_write. rewrite write_chunks_spec by (cbn; lia). cbn.
      now rewrite <- app_assoc.
    + intros Hn. apply split_chunks_concat; [assumption | lia].
Qed.

(** X5 — What [dumps] returns is always recognised as a container.  Whatever
    the object, the algorithm, the level and the configuration, a result of
    [dumps] is at least a header long and [is_zpickle_data] accepts it, so no
    reader takes it for foreign data. *)
Theorem dumps_output_is_a_container (obj : Obj pk) (dop : dump_opts)
    (alg_arg : option string) (lvl_arg : option Z) (d : bytes) (w w' : world) :
  length (MAGIC_VERSION fmt) = 5%nat ->
  dumps obj dop alg_arg lvl_arg w = Some (Ok d, w') ->
  is_zpickle_data d = true /\ (8 <= length d)%nat.
Proof.
  intros Hm H. unfold dumps, bind, lift, get_config, ret in H.
  destruct (pickle_dumps pk obj dop) as [p|e]; [|discriminate].
  destruct ((Z.of_nat (length p) <? min_size (config w))
            || (or_str alg_arg (algorithm (config w)) =? "none")%string).
  - injection H as <- <-. split; [now apply is_zpickle_data_encode|].
    rewrite length_app, encode_header_length by assumption. lia.
  - destruct (compress cu p _ _) as [c|e]; [|discriminate].
    injection H as <- <-. split; [now apply is_zpickle_data_encode|].
    rewrite length_app, encode_header_length by assumption. lia.
Qed.

(** X6 — A compressor that fails on an algorithm of the header table.
    [dump] compresses before it writes, so when [compress] raises nothing
    reaches the file.  [dump_streaming] writes the header before it builds
    the compressor, so when [CompressStream] raises the exception comes out
    with the eight header bytes already in the file. *)
Theorem rejected_algorithm_leaves_a_header (obj : Obj pk) (dop : dump_opts)
    (alg_arg : option string) (lvl_arg : option Z) (chunk_size : Z)
    (p : bytes) (e e' : exn) (w : world) :
  pickle_dumps pk obj dop = Ok p ->
  min_size (config w) <= Z.of_nat (length p) ->
  or_str alg_arg (algorithm (config w)) <> "none" ->
  id_algorithm fmt (algorithm_id fmt (or_str alg_arg (algorithm (config w))))
  = Some (or_str alg_arg (algorithm (config w))) ->
  compress cu p (or_str alg_arg (algorithm (config w)))
    (or_int lvl_arg (level (config w))) = Raise e ->
  CompressStream cu (or_str alg_arg (algorithm (config w)))
    (or_int lvl_arg (level (config w))) = Raise e' ->
  dump obj dop alg_arg lvl_arg w = Some (Raise e, w)
  /\ dump_streaming obj dop alg_arg lvl_arg chunk_size w
     = Some (Raise e',
             mkWorld (config w) (input w)
               (output w
                ++ [encode_header (or_str alg_arg (algorithm (config w)))
                      (or_int lvl_arg (level (config w)))])
               (warnings w)).
Proof.
  intros Hp Hbig Hne _ Hc Hs.
  apply Z.ltb_ge in Hbig. apply String.eqb_neq in Hne. split.
  - unfold dump, dumps, bind, lift, get_config. now rewrite Hp, Hbig, Hne, Hc.
  - unfold dump_streaming, bind at 1, get_config. unfold bind at 1, lift.
    rewrite Hp, Hbig, Hne. cbn [orb].
    unfold bind, file_write, lift. now rewrite Hs.
Qed.




(** ** The loops and the stream objects *)



Lemma decompress_chunks_trace (fuel : nat) (n : Z) (st : DStream cu)
    (acc : bytes) (w : world) :
  (length (input w) < fuel)%nat ->
  exists w',
    decompress_chunks fuel n st acc w
    = Some (match feed_decompressor st (split_chunks fuel n (input w)) with
            | Ok (outs, st') => Ok (st', acc ++ outs)
            | Raise e => Raise e
            end, w').
Proof.
  revert st acc w. induction fuel as [|fuel IH]; intros st acc w Hlen; [lia|].
  cbn. unfold bind at 1. rewrite file_read_eq.
  pose proof (read_bytes_shrinks n (input w)) as Hshr.
  destruct (read_bytes n (input w)) as [chunk rest]. cbn [fst snd] in *.
  destruct (is_empty chunk) eqn:He.
  - cbn. unfold ret. rewrite app_nil_r. eauto.
  - apply is_empty_false in He. specialize (Hshr He). cbn.
    destruct (ds_decompress cu st chunk) as [[out st1]|e]; [|eauto].
    destruct (IH st1 (if is_empty out then acc else acc ++ out)
                (set_input rest w) ltac:(cbn; lia)) as [w' Hrun].
    exists w'. rewrite Hrun. cbn [input set_input].
    destruct (feed_decompressor st1 (split_chunks fuel n rest)) as [[outs st2]|e];
      [|reflexivity].
    destruct (is_empty out) eqn:Hout.
    + apply is_empty_true in Hout. now subst out.
    + now rewrite <- app_assoc.
Qed.

(** X9 — Strict [load_streaming] on a compressed container.  After a header
    that names a compression algorithm, the decompressor is fed the
    [read(chunk_size)] slices of the rest of the stream in order and then
    finished once; the deserializer receives exactly what it emitted, and an
    exception of the decompressor comes out of [load_streaming] as it is, the
    deserializer not being called. *)
Theorem load_streaming_feeds_the_decompressor (header body : bytes)
    (lop : load_opts) (v l r : Z) (alg : string) (chunk_size : Z)
    (cfg : ZpickleConfig) (out : list bytes) (ws : list warning) :
  length header = 8%nat ->
  is_zpickle_data header = true ->
  decode_header header true = Ok (v, alg, l, r) -> alg <> "none" ->
  exists w',
    load_streaming lop true chunk_size (mkWorld cfg (header ++ body) out ws)
    = Some (match stream_decompress alg
                    (split_chunks (S (length body)) chunk_size body) with
            | Ok p => pickle_loads pk p lop
            | Raise e => Raise e
            end, w').
Proof.
  intros Hlen Hz Hd Hne. apply String.eqb_neq in Hne.
  unfold load_streaming, bind at 1. rewrite file_read_eq. cbn [input].
  rewrite read_bytes_header by assumption. cbn [fst snd]. rewrite Hlen.
  change (Z.of_nat 8 <? HEADER_SIZE) with false. cbv iota. rewrite Hz.
  unfold bind at 1, try_except, bind at 1, lift. rewrite Hd, Hne.
  unfold bind at 1, stream_decompress.
  destruct (DecompressStream cu alg) as [st|e]; [|unfold raise; eauto].
  unfold bind at 1, with_input_fuel. cbn [input set_input].
  destruct (decompress_chunks_trace (S (length body)) chunk_size st []
              (mkWorld cfg body out ws) (Nat.lt_succ_diag_r _)) as [w' Hrun].
  cbn [input] in Hrun. unfold set_input. cbn [config output warnings].
  rewrite Hrun.
  destruct (feed_decompressor st (split_chunks (S (length body)) chunk_size body))
    as [[outs st']|e]; [|unfold raise; eauto].
  unfold bind, lift, ret. destruct (ds_finish cu st') as [fin|e]; [|unfold raise; eauto].
  cbn [app]. destruct (is_empty fin) eqn:He; [|eauto].
  apply is_empty_true in He. subst fin. rewrite app_nil_r. eauto.
Qed.


(** ** More on the readers *)

(** X10 — [loads] on a container it cannot open.  When [decode_header]
    raises, or the header names a compression algorithm and [decompress]
    raises, strict [loads] raises that very exception and leaves the world
    alone, the deserializer not being called; non-strict [loads] emits one
    [RuntimeWarning] that quotes the exception and hands the whole input,
    header included, to the deserializer. *)
Theorem loads_on_a_bad_container (data : bytes) (lop : load_opts) (strict : bool)
    (e : exn) (w : world) :
  is_zpickle_data data = true ->
  (decode_header data strict = Raise e
   \/ exists v alg l r,
        decode_header data strict = Ok (v, alg, l, r) /\ alg <> "none"
        /\ decompress cu (skipn 8 data) alg = Raise e) ->
  loads (PyBytes data) lop strict w
  = if strict then Some (Raise e, w)
    else Some (pickle_loads pk data lop,
               add_warning
                 (RuntimeWarning
                    ("Error processing zpickle data, falling back to regular pickle: "
                     ++ exn_str e)%string) w).
Proof.
  intros Hz [Hd | (v & alg & l & r & Hd & Hne & Hc)]; unfold loads; rewrite Hz;
    unfold bind at 1, try_except, bind at 1, lift; rewrite Hd.
  - now destruct strict.
  - apply String.eqb_neq in Hne. rewrite Hne.
    change (Z.to_nat HEADER_SIZE) with 8%nat. rewrite Hc. now destruct strict.
Qed.

(** X11 — A header that [decode_header] refuses, read from a stream.  The
    error arises before any of the payload is read, so non-strict [load] and
    [load_streaming] emit one warning and hand the whole stream, the eight
    header bytes first, to the deserializer; strict ones raise the error with
    the payload still unread. *)
Theorem refused_header_keeps_the_stream (header rest : bytes) (lop : load_opts)
    (strict : bool) (chunk_size : Z) (e : exn)
    (cfg : ZpickleConfig) (out : list bytes) (ws : list warning) :
  length header = 8%nat ->
  is_zpickle_data header = true ->
  decode_header header strict = Raise e ->
  let after :=
    if strict then Some (Raise e, mkWorld cfg rest out ws)
    else Some (pickle_loads pk (header ++ rest) lop,
               mkWorld cfg [] out
                 (ws ++ [RuntimeWarning
                           ("Error processing zpickle data, falling back to regular pickle: "
                            ++ exn_str e)%string])) in
  load lop strict (mkWorld cfg (header ++ rest) out ws) = after
  /\ load_streaming lop strict chunk_size (mkWorld cfg (header ++ rest) out ws)
     = after.
Proof.
  intros Hlen Hz Hd after. split.
  - unfold load, bind at 1. rewrite file_read_eq. cbn [input].
    rewrite read_bytes_header by assumption. cbn [fst snd]. rewrite Hz.
    unfold bind at 1, try_except, bind at 1, lift. rewrite Hd.
    subst after. now destruct strict.
  - unfold load_streaming, bind at 1. rewrite file_read_eq. cbn [input].
    rewrite read_bytes_header by assumption. cbn [fst snd]. rewrite Hlen.
    change (Z.of_nat 8 <? HEADER_SIZE) with false. cbv iota. rewrite Hz.
    unfold bind at 1, try_except, bind at 1, lift. rewrite Hd.
    subst after. now destruct strict.
Qed.

(** X12 — A stream decompressor that cannot be built.  [load_streaming]
    builds the [DecompressStream] before its first read of the payload: when
    the constructor raises, non-strict mode warns once and deserializes the
    whole stream, header included, and strict mode raises the error with the
    payload unread. *)
Theorem failed_constructor_keeps_the_stream (header rest : bytes)
    (lop : load_opts) (strict : bool) (chunk_size : Z) (e : exn)
    (v l r : Z) (alg : string)
    (cfg : ZpickleConfig) (out : list bytes) (ws : list warning) :
  length header = 8%nat ->
  is_zpickle_data header = true ->
  decode_header header strict = Ok (v, alg, l, r) -> alg <> "none" ->
  DecompressStream cu alg = Raise e ->
  load_streaming lop strict chunk_size (mkWorld cfg (header ++ rest) out ws)
  = if strict then Some (Raise e, mkWorld cfg rest out ws)
    else Some (pickle_loads pk (header ++ rest) lop,
               mkWorld cfg [] out
                 (ws ++ [RuntimeWarning
                           ("Error processing zpickle data, falling back to regular pickle: "
                            ++ exn_str e)%string])).
Proof.
  intros Hlen Hz Hd Hne Hs. apply String.eqb_neq in Hne.
  unfold load_streaming, bind at 1. rewrite file_read_eq. cbn [input].
  rewrite read_bytes_header by assumption. cbn [fst snd]. rewrite Hlen.
  change (Z.of_nat 8 <? HEADER_SIZE) with false. cbv iota. rewrite Hz.
  unfold bind at 1, try_except, bind at 1, lift. rewrite Hd, Hne.
  unfold bind at 1. rewrite Hs. now destruct strict.
Qed.

Lemma dumps_none (obj : Obj pk) (dop : dump_opts) (alg_arg : option string)
    (lvl_arg : option Z) (p : bytes) (w : world) :
  or_str alg_arg (algorithm (config w)) = "none" ->
  pickle_dumps pk obj dop = Ok p ->
  dumps obj dop alg_arg lvl_arg w = Some (Ok (encode_header "none" 0 ++ p), w).
Proof.
  intros Hnone Hp. unfold dumps, bind, lift, get_config. rewrite Hp, Hnone.
  cbn [String.eqb Ascii.eqb Bool.eqb]. now rewrite orb_true_r.
Qed.

Lemma load_none_container (rest : bytes) (lop : load_opts) (strict : bool)
    (cfg : ZpickleConfig) (out : list bytes) (ws : list warning) :
  length (MAGIC_VERSION fmt) = 5%nat ->
  algorithm_id fmt "none" = 0 -> id_algorithm fmt 0 = Some "none" ->
  load lop strict (mkWorld cfg (encode_header "none" 0 ++ rest) out ws)
  = Some (pickle_loads pk rest lop, mkWorld cfg [] out ws).
Proof.
  intros Hm Hid Hzero.
  assert (Hid' : id_algorithm fmt (algorithm_id fmt "none") = Some "none")
    by now rewrite Hid.
  destruct (decode_header_encode "none" 0 [] strict Hm Hid') as (v & r & Hdec).
  rewrite app_nil_r in Hdec.
  unfold load, bind at 1. rewrite file_read_eq. cbn [input].
  rewrite read_bytes_header by now apply encode_header_length.
  cbn [fst snd].
  rewrite <- (app_nil_r (encode_header "none" 0)) at 1.
  rewrite is_zpickle_data_encode by assumption.
  unfold bind at 1, try_except, bind at 1, lift. rewrite Hdec.
  unfold bind at 1, file_read_all. rewrite file_read_eq. reflexivity.
Qed.

(** X13 — [load] takes the rest of the stream as one payload.  After two
    objects are dumped without compression into the same file, one [load]
    reads the file to its end: the deserializer receives the first
    serialized object followed by the whole second container, and nothing is
    left in the stream for a second [load]. *)
Theorem load_reads_to_the_end (obj1 obj2 : Obj pk) (dop : dump_opts)
    (lop : load_opts) (alg_arg : option string) (lvl_arg : option Z)
    (strict : bool) (p1 p2 : bytes) (w : world) :
  length (MAGIC_VERSION fmt) = 5%nat ->
  algorithm_id fmt "none" = 0 -> id_algorithm fmt 0 = Some "none" ->
  or_str alg_arg (algorithm (config w)) = "none" ->
  pickle_dumps pk obj1 dop = Ok p1 -> pickle_dumps pk obj2 dop = Ok p2 ->
  output w = [] ->
  (dump obj1 dop alg_arg lvl_arg ;;; dump obj2 dop alg_arg lvl_arg ;;;
   seek0 ;;; load lop strict) w
  = Some (pickle_loads pk (p1 ++ encode_header "none" 0 ++ p2) lop,
          mkWorld (config w) []
            [encode_header "none" 0 ++ p1; encode_header "none" 0 ++ p2]
            (warnings w)).
Proof.
  intros Hm Hid Hzero Hnone Hp1 Hp2 Hout.
  set (d1 := encode_header "none" 0 ++ p1).
  set (d2 := encode_header "none" 0 ++ p2).
  assert (Hseek : seek0 (add_output d2 (add_output d1 w))
                  = Some (Ok tt, mkWorld (config w) (d1 ++ d2) [d1; d2] (warnings w))).
  { unfold seek0, getvalue, set_input, add_output.
    cbn [config input output warnings]. rewrite Hout.
    cbn [app concat]. now rewrite app_nil_r. }
  unfold bind at 1.
  rewrite (dump_spec obj1 dop alg_arg lvl_arg _ w
             (dumps_none obj1 dop alg_arg lvl_arg p1 w Hnone Hp1)).
  unfold bind at 1.
  rewrite (dump_spec obj2 dop alg_arg lvl_arg _ _
             (dumps_none obj2 dop alg_arg lvl_arg p2
                (add_output (encode_header "none" 0 ++ p1) w) Hnone Hp2)).
  fold d1 d2. unfold bind at 1. rewrite Hseek.
  unfold d1 at 1. rewrite <- app_assoc.
  now apply load_none_container.
Qed.


(** ** The size of the chunks *)

Lemma split_chunks_bounded (fuel : nat) (n : Z) (buf : bytes) :
  0 < n ->
  Forall (fun c => c <> [] /\ Z.of_nat (length c) <= n) (split_chunks fuel n buf).
Proof.
  intros Hn. revert buf. induction fuel as [|fuel IH]; intros buf; cbn.
  - constructor.
  - assert (Hlen : Z.of_nat (length (fst (read_bytes n buf))) <= n).
    { unfold read_bytes. destruct (n <? 0) eqn:Hneg; [apply Z.ltb_lt in Hneg; lia|].
      cbn. rewrite length_firstn. lia. }
    destruct (read_bytes n buf) as [chunk rest]. cbn [fst] in Hlen.
    destruct (is_empty chunk) eqn:He; constructor.
    + split; [now apply is_empty_false | assumption].
    + apply IH.
Qed.

Lemma split_chunks_zero (fuel : nat) (buf : bytes) : split_chunks fuel 0 buf = [].
Proof. destruct fuel; reflexivity. Qed.

Lemma dump_streaming_skip (obj : Obj pk) (dop : dump_opts)
    (alg_arg : option string) (lvl_arg : option Z) (chunk_size : Z)
    (p : bytes) (w : world) :
  pickle_dumps pk obj dop = Ok p ->
  (Z.of_nat (length p) <? min_size (config w))
  || (or_str alg_arg (algorithm (config w)) =? "none")%string = true ->
  dump_streaming obj dop alg_arg lvl_arg chunk_size w
  = Some (Ok tt,
          mkWorld (config w) (input w)
            (output w
             ++ encode_header "none" 0 :: split_chunks (S (length p)) chunk_size p)
            (warnings w)).
Proof.
  intros Hp Hskip.
  unfold dump_streaming, bind at 1, get_config. unfold bind at 1, lift.
  rewrite Hp, Hskip.
  unfold bind, file_write. rewrite write_chunks_spec by (cbn; lia). cbn.
  now rewrite <- app_assoc.
Qed.

(** X14 — The uncompressed copy is written in bounded pieces.  When
    compression is skipped (a payload below [min_size], or the algorithm
    ["none"]) and the chunk size is positive, [dump_streaming] writes the
    header and then the serialized bytes in order, in writes that are never
    empty and never longer than [chunk_size]. *)
Theorem uncompressed_copy_is_chunked (obj : Obj pk) (dop : dump_opts)
    (alg_arg : option string) (lvl_arg : option Z) (chunk_size : Z)
    (p : bytes) (w : world) :
  pickle_dumps pk obj dop = Ok p ->
  (Z.of_nat (length p) <? min_size (config w))
  || (or_str alg_arg (algorithm (config w)) =? "none")%string = true ->
  0 < chunk_size ->
  exists chunks,
    dump_streaming obj dop alg_arg lvl_arg chunk_size w
    = Some (Ok tt,
            mkWorld (config w) (input w)
              (output w ++ encode_header "none" 0 :: chunks) (warnings w))
    /\ concat chunks = p
    /\ Forall (fun c => c <> [] /\ Z.of_nat (length c) <= chunk_size) chunks.
Proof.
  intros Hp Hskip Hn. exists (split_chunks (S (length p)) chunk_size p).
  split; [now apply dump_streaming_skip|]. split.
  - apply split_chunks_concat; lia.
  - now apply split_chunks_bounded.
Qed.

(** X15 — A chunk size of zero copies nothing.  [read(0)] returns no bytes,
    which both loops take for the end of the data: when compression is
    skipped [dump_streaming] writes the header and none of the payload, and
    on an uncompressed container [load_streaming] hands the deserializer an
    empty payload and leaves the real one unread in the stream. *)
Theorem chunk_size_zero_copies_nothing (obj : Obj pk) (dop : dump_opts)
    (lop : load_opts) (alg_arg : option string) (lvl_arg : option Z)
    (strict : bool) (p rest : bytes) (w : world)
    (cfg : ZpickleConfig) (out : list bytes) (ws : list warning) :
  length (MAGIC_VERSION fmt) = 5%nat ->
  algorithm_id fmt "none" = 0 -> id_algorithm fmt 0 = Some "none" ->
  pickle_dumps pk obj dop = Ok p ->
  (Z.of_nat (length p) <? min_size (config w))
  || (or_str alg_arg (algorithm (config w)) =? "none")%string = true ->
  dump_streaming obj dop alg_arg lvl_arg 0 w
  = Some (Ok tt,
          mkWorld (config w) (input w) (output w ++ [encode_header "none" 0])
            (warnings w))
  /\ load_streaming lop strict 0
       (mkWorld cfg (encode_header "none" 0 ++ rest) out ws)
     = Some (pickle_loads pk [] lop, mkWorld cfg rest out ws).
Proof.
  intros Hm Hid Hzero Hp Hskip. split.
  - rewrite (dump_streaming_skip obj dop alg_arg lvl_arg 0 p w Hp Hskip).
    now rewrite split_chunks_zero.
  - assert (Hid' : id_algorithm fmt (algorithm_id fmt "none") = Some "none")
      by now rewrite Hid.
    destruct (decode_header_encode "none" 0 [] strict Hm Hid') as (v & r & Hdec).
    rewrite app_nil_r in Hdec.
    unfold load_streaming, bind at 1. rewrite file_read_eq. cbn [input].
    rewrite read_bytes_header by now apply encode_header_length.
    cbn [fst snd]. rewrite (encode_header_length "none" 0 Hm).
    change (Z.of_nat 8 <? HEADER_SIZE) with false. cbv iota.
    rewrite <- (app_nil_r (encode_header "none" 0)) at 1.
    rewrite is_zpickle_data_encode by assumption.
    unfold bind at 1, try_except, bind at 1, lift. rewrite Hdec.
    cbn [String.eqb Ascii.eqb Bool.eqb]. unfold with_input_fuel.
    cbn [read_chunks]. unfold bind at 1. rewrite file_read_eq.
    cbn [input set_input read_bytes Z.ltb Z.compare Z.to_nat firstn skipn fst snd is_empty].
    reflexivity.
Qed.

(** ** The forward-only stream of the tests *)

Lemma py_slice_from (data : bytes) (pos : Z) :
  0 <= pos -> py_slice data pos None = skipn (Z.to_nat pos) data.
Proof.
  intros Hpos. unfold py_slice, slice_index.
  destruct (pos <? 0) eqn:Hneg; [apply Z.ltb_lt in Hneg; lia|].
  destruct (Z.le_gt_cases pos (Z.of_nat (length data))) as [Hle | Hgt].
  - rewrite Z.min_l by assumption. apply firstn_all2.
    rewrite length_skipn. lia.
  - rewrite Z.min_r by lia. rewrite Nat2Z.id, skipn_all, firstn_nil.
    symmetry. apply skipn_all2. lia.
Qed.

Lemma py_slice_upto (data : bytes) (pos n : Z) :
  0 <= pos -> 0 <= n ->
  py_slice data pos (Some (pos + n))
  = firstn (Z.to_nat n) (skipn (Z.to_nat pos) data).
Proof.
  intros Hpos Hn. unfold py_slice, slice_index.
  destruct (pos <? 0) eqn:Hneg; [apply Z.ltb_lt in Hneg; lia|].
  destruct (pos + n <? 0) eqn:Hneg'; [apply Z.ltb_lt in Hneg'; lia|].
  destruct (Z.le_gt_cases pos (Z.of_nat (length data))) as [Hle | Hgt].
  - rewrite (Z.min_l pos) by assumption.
    destruct (Z.le_gt_cases (pos + n) (Z.of_nat (length data))) as [Hle' | Hgt'].
    + rewrite Z.min_l by assumption. f_equal. lia.
    + rewrite Z.min_r by lia.
      rewrite !firstn_all2; [reflexivity | |]; rewrite length_skipn; lia.
  - rewrite (Z.min_r pos) by lia. rewrite Nat2Z.id, skipn_all, firstn_nil.
    rewrite skipn_all2 by lia. now rewrite firstn_nil.
Qed.

(** X16 — The forward-only stream of the tests reads like a buffer.  For
    every size that the readers ask for (a non-negative one, or -1 for
    "all"), [NonSeekableStream.read] returns the bytes that a read of the
    same size returns on the unread part of the buffer and leaves unread what
    that read leaves; its position stays non-negative, so the same holds of
    the next read. *)
Theorem forward_only_stream_reads_like_a_buffer (n : Z) (s : NonSeekableStream) :
  0 <= _pos s -> 0 <= n \/ n = -1 ->
  fst (NonSeekableStream_read n s) = fst (read_bytes n (unread s))
  /\ unread (snd (NonSeekableStream_read n s)) = snd (read_bytes n (unread s))
  /\ 0 <= _pos (snd (NonSeekableStream_read n s))
  /\ _data (snd (NonSeekableStream_read n s)) = _data s.
Proof.
  destruct s as [data pos]. cbn [_pos _data]. intros Hpos Hn.
  unfold NonSeekableStream_read, unread. cbn [_pos _data].
  destruct (n =? -1) eqn:Hall.
  - apply Z.eqb_eq in Hall. subst n. cbn [fst snd _pos _data].
    rewrite py_slice_from by assumption. rewrite read_bytes_all. cbn [fst snd].
    rewrite Nat2Z.id, skipn_all. repeat split. lia.
  - apply Z.eqb_neq in Hall. destruct Hn as [Hn | Hn]; [|contradiction].
    cbn [fst snd _pos _data]. rewrite py_slice_upto by assumption.
    unfold read_bytes. destruct (n <? 0) eqn:Hneg; [apply Z.ltb_lt in Hneg; lia|].
    cbn [fst snd]. repeat split; [|lia].
    rewrite skipn_skipn, Z2Nat.inj_add by assumption. f_equal. lia.
Qed.

End Zpickle.

(** ** The sample instance meets the contracts *)

Lemma sample_format_contract : format_contract Sample.format Sample.supported.
Proof.
  unfold format_contract. repeat split.
  - intros a Ha. unfold Sample.supported, Sample.compresses in Ha.
    cbn [id_algorithm algorithm_id Sample.format]. unfold Sample.name_to_id.
    destruct (String.eqb_spec a "zstd") as [E|_]; [now subst a|].
    destruct (String.eqb_spec a "brotli") as [E|_]; [now subst a|].
    destruct (String.eqb_spec a "zlib") as [E|_]; [now subst a|].
    destruct (String.eqb_spec a "lzma") as [E|_]; [now subst a|].
    destruct (String.eqb_spec a "none") as [E|_]; [now subst a|discriminate].
  - intros a Ha ->. discriminate.
Qed.

Lemma sample_feed_started (chunks : list bytes) :
  feed_compressor Sample.codec true chunks = Ok (concat chunks, true).
Proof.
  induction chunks as [|c cs IH]; [reflexivity|].
  cbn in *. now rewrite IH.
Qed.

Lemma sample_stream_compress (alg : string) (lvl : Z) (chunks : list bytes) :
  Sample.compresses alg = true ->
  stream_compress Sample.codec alg lvl chunks = Ok (Sample.TAG :: concat chunks).
Proof.
  intros Ha. unfold stream_compress. cbn. unfold Sample.new_compressor.
  rewrite Ha. destruct chunks as [|c cs]; [reflexivity|].
  cbn. pose proof (sample_feed_started cs) as Hcs. cbn in Hcs. rewrite Hcs.
  cbn. now rewrite app_nil_r.
Qed.

Lemma sample_unfeed_started (chunks : list bytes) :
  feed_decompressor Sample.codec true chunks = Ok (concat chunks, true).
Proof.
  induction chunks as [|c cs IH]; [reflexivity|].
  cbn in *. now rewrite IH.
Qed.

Lemma sample_unfeed (chunks : list bytes) (p : bytes) :
  concat chunks = Sample.TAG :: p ->
  feed_decompressor Sample.codec false chunks = Ok (p, true).
Proof.
  induction chunks as [|c cs IH]; [discriminate|].
  destruct c as [|b r]; cbn [concat app]; intros H.
  - specialize (IH H). cbn in *. now rewrite IH.
  - injection H as -> <-. pose proof (sample_unfeed_started cs) as Hcs.
    cbn in *. now rewrite Hcs.
Qed.

Lemma sample_decodes_to (alg : string) (p : bytes) :
  Sample.compresses alg = true ->
  decodes_to Sample.codec alg (Sample.TAG :: p) p.
Proof.
  intros Ha. split.
  - cbn. unfold Sample.stored_decompress. now rewrite Ha.
  - intros chunks _ Hcat. unfold stream_decompress. cbn.
    unfold Sample.new_decompressor. rewrite Ha.
    pose proof (sample_unfeed chunks p Hcat) as Hrun. cbn in Hrun. rewrite Hrun.
    cbn. now rewrite app_nil_r.
Qed.

Lemma sample_compressor_contract :
  compressor_contract Sample.codec Sample.supported.
Proof.
  intros alg lvl Hsup Hne.
  assert (Ha : Sample.compresses alg = true).
  { unfold Sample.supported in Hsup. apply orb_true_iff in Hsup.
    destruct Hsup as [H|H]; [|assumption].
    apply String.eqb_eq in H. contradiction. }
  split.
  - intros p. exists (Sample.TAG :: p). split.
    + cbn. unfold Sample.stored_compress. now rewrite Ha.
    + now apply sample_decodes_to.
  - intros chunks _. exists (Sample.TAG :: concat chunks). split.
    + now apply sample_stream_compress.
    + now apply sample_decodes_to.
Qed.

(** ** The statements on the sample instance *)

Lemma one_shot_roundtrip_witness :
  (d <- dumps Sample.pickle Sample.codec Sample.format Sample.numbers
          Sample.default_dump (Some "lzma") (Some 9) ;;
   loads Sample.pickle Sample.codec Sample.format (PyBytes d)
     Sample.default_load true) Sample.fresh
  = Some (Ok Sample.numbers, Sample.fresh)
  /\ exists d,
      (dump Sample.pickle Sample.codec Sample.format Sample.numbers
         Sample.default_dump (Some "lzma") (Some 9) ;;; seek0 ;;;
       load Sample.pickle Sample.codec Sample.format Sample.default_load true)
        Sample.fresh
      = Some (Ok Sample.numbers,
              mkWorld (config Sample.fresh) [] [d] (warnings Sample.fresh)).
Proof.
  apply (one_shot_roundtrip Sample.pickle Sample.codec Sample.format
           Sample.supported Sample.numbers Sample.default_dump
           Sample.default_load "lzma" 9 true (128 :: Sample.numbers) Sample.fresh
           sample_compressor_contract sample_format_contract);
    reflexivity.
Defined.

Lemma small_payload_bypass_witness :
  Z.of_nat (length (128 :: Sample.tiny)) < min_size (config Sample.fresh)
  /\ nth_error (encode_header Sample.format "none" 0 ++ 128 :: Sample.tiny) 5
     = Some 0
  /\ dumps Sample.pickle Sample.codec Sample.format Sample.tiny
       Sample.default_dump (Some "zstd") (Some 9) Sample.fresh
     = Some (Ok (encode_header Sample.format "none" 0 ++ 128 :: Sample.tiny),
             Sample.fresh)
  /\ dump_streaming Sample.pickle Sample.codec Sample.format Sample.tiny
       Sample.default_dump (Some "zstd") (Some 9) 1 Sample.fresh
     = Some (Ok tt,
             mkWorld Sample.cfg [] [encode_header Sample.format "none" 0; [128]; [1]] []).
Proof.
  split; [reflexivity|].
  destruct (small_payload_bypass Sample.pickle Sample.codec Sample.format
              Sample.tiny Sample.default_dump (Some "zstd") (Some 9)
              (128 :: Sample.tiny) Sample.fresh
              eq_refl eq_refl eq_refl eq_refl) as [H5 [Hdumps Hstream]].
  split; [assumption|]. split; [assumption|].
  destruct (Hstream 1) as [Hrun _]. exact Hrun.
Defined.

Lemma load_fallback_after_decompress_error_witness :
  decompress Sample.codec Sample.garbage "zlib"
  = Raise (CompressionError "corrupt data")
  /\ load Sample.pickle Sample.codec Sample.format Sample.default_load false
       (mkWorld Sample.cfg (Sample.zlib_header ++ Sample.garbage) [] [])
     = Some (pickle_loads Sample.pickle Sample.zlib_header Sample.default_load,
             mkWorld Sample.cfg [] []
               ([] ++ [RuntimeWarning
                         ("Error processing zpickle data, falling back to regular pickle: "
                          ++ exn_str (CompressionError "corrupt data"))%string])).
Proof.
  split; [reflexivity|].
  apply (load_fallback_after_decompress_error Sample.pickle Sample.codec
           Sample.format Sample.zlib_header Sample.garbage Sample.default_load
           (CompressionError "corrupt data") 1 3 0 "zlib" Sample.cfg [] []);
    solve [reflexivity | discriminate].
Defined.

Lemma explicit_level_zero_uses_config_witness :
  level (config Sample.fresh) = 3
  /\ dumps Sample.pickle Sample.codec Sample.format Sample.numbers
       Sample.default_dump (Some "zlib") (Some 0) Sample.fresh
     = Some (Ok (encode_header Sample.format "zlib" (level (config Sample.fresh))
                 ++ Sample.TAG :: 128 :: Sample.numbers),
             Sample.fresh).
Proof.
  split; [reflexivity|].
  apply (explicit_level_zero_uses_config Sample.pickle Sample.codec Sample.format
           Sample.numbers Sample.default_dump "zlib" (128 :: Sample.numbers)
           (Sample.TAG :: 128 :: Sample.numbers) Sample.fresh);
    solve [reflexivity | discriminate].
Defined.

Lemma cross_mode_equivalence_witness :
  (exists w1,
     (dump Sample.pickle Sample.codec Sample.format Sample.numbers
        Sample.default_dump None None ;;; seek0 ;;;
      load Sample.pickle Sample.codec Sample.format Sample.default_load true)
       Sample.fresh
     = Some (Ok Sample.numbers, w1)
     /\ (dump Sample.pickle Sample.codec Sample.format Sample.numbers
           Sample.default_dump None None ;;; seek0 ;;;
         load_streaming Sample.pickle Sample.codec Sample.format
           Sample.default_load true DEFAULT_CHUNK_SIZE) Sample.fresh
        = Some (Ok Sample.numbers, w1))
  /\ (exists w2,
        (dump_streaming Sample.pickle Sample.codec Sample.format Sample.numbers
           Sample.default_dump None None DEFAULT_CHUNK_SIZE ;;; seek0 ;;;
         load_streaming Sample.pickle Sample.codec Sample.format
           Sample.default_load true DEFAULT_CHUNK_SIZE) Sample.fresh
        = Some (Ok Sample.numbers, w2)
        /\ (dump_streaming Sample.pickle Sample.codec Sample.format Sample.numbers
              Sample.default_dump None None DEFAULT_CHUNK_SIZE ;;; seek0 ;;;
            load Sample.pickle Sample.codec Sample.format
              Sample.default_load true) Sample.fresh
           = Some (Ok Sample.numbers, w2)).
Proof.
  apply (cross_mode_equivalence Sample.pickle Sample.codec Sample.format
           Sample.supported Sample.numbers Sample.default_dump
           Sample.default_load None None true (128 :: Sample.numbers) Sample.fresh
           sample_compressor_contract sample_format_contract);
    reflexivity.
Defined.

Lemma foreign_data_is_deserialized_witness :
  is_zpickle_data Sample.format (firstn 8 (128 :: Sample.numbers)) = false
  /\ loads Sample.pickle Sample.codec Sample.format
       (PyBytes (128 :: Sample.numbers)) Sample.default_load true Sample.fresh
     = Some (Ok Sample.numbers, Sample.fresh)
  /\ load Sample.pickle Sample.codec Sample.format Sample.default_load true
       (mkWorld Sample.cfg (128 :: Sample.numbers) [] [])
     = Some (Ok Sample.numbers, mkWorld Sample.cfg [] [] [])
  /\ load_streaming Sample.pickle Sample.codec Sample.format
       Sample.default_load true 4 (mkWorld Sample.cfg (128 :: Sample.numbers) [] [])
     = Some (Ok Sample.numbers, mkWorld Sample.cfg [] [] []).
Proof.
  split; [reflexivity|].
  apply (foreign_data_is_deserialized Sample.pickle Sample.codec Sample.format
           Sample.numbers Sample.default_dump Sample.default_load true 4
           (128 :: Sample.numbers) Sample.fresh Sample.cfg [] []);
    reflexivity.
Defined.

Lemma short_stream_is_foreign_witness :
  (length (128 :: Sample.tiny)%Z < 8)%nat
  /\ load_streaming Sample.pickle Sample.codec Sample.format
       Sample.default_load true DEFAULT_CHUNK_SIZE
       (mkWorld Sample.cfg (128 :: Sample.tiny) [] [])
     = Some (pickle_loads Sample.pickle (128 :: Sample.tiny) Sample.default_load,
             mkWorld Sample.cfg [] [] []).
Proof.
  split; [cbn; lia|].
  apply (short_stream_is_foreign Sample.pickle Sample.codec Sample.format
           (128 :: Sample.tiny) Sample.default_load true DEFAULT_CHUNK_SIZE
           Sample.cfg [] []).
  cbn; lia.
Defined.

Lemma chunk_size_independence_witness :
  option_map fst
    (streaming_roundtrip Sample.pickle Sample.codec Sample.format Sample.numbers
       Sample.default_dump Sample.default_load None None true 1024 4096
       Sample.fresh)
  = Some (Ok Sample.numbers)
  /\ option_map fst
       (streaming_roundtrip Sample.pickle Sample.codec Sample.format
          Sample.numbers Sample.default_dump Sample.default_load None None true
          1024 4096 Sample.fresh)
     = option_map fst
         (streaming_roundtrip Sample.pickle Sample.codec Sample.format
            Sample.numbers Sample.default_dump Sample.default_load None None true
            65536 262144 Sample.fresh).
Proof.
  apply (chunk_size_independence Sample.pickle Sample.codec Sample.format
           Sample.supported Sample.numbers Sample.default_dump
           Sample.default_load None None true 1024 4096 65536 262144
           (128 :: Sample.numbers) Sample.fresh
           sample_compressor_contract sample_format_contract);
    reflexivity.
Defined.

(** C2 as stated fails at chunk size 0: the payload is below [min_size], the
    copy loop of [dump_streaming] stops at its first, empty, read, and the
    file holds the header without the serialized bytes that [dumps] puts
    after it. *)
Lemma bypass_at_chunk_size_zero_drops_the_payload :
  dumps Sample.pickle Sample.codec Sample.format Sample.tiny
    Sample.default_dump None None Sample.fresh
  = Some (Ok (encode_header Sample.format "none" 0 ++ 128 :: Sample.tiny),
          Sample.fresh)
  /\ ~ (forall chunk_size : Z,
          exists w',
            dump_streaming Sample.pickle Sample.codec Sample.format Sample.tiny
              Sample.default_dump None None chunk_size Sample.fresh
            = Some (Ok tt, w')
            /\ getvalue w'
               = encode_header Sample.format "none" 0 ++ 128 :: Sample.tiny).
Proof.
  split; [reflexivity|].
  intros H. destruct (H 0) as (w' & Hrun & Hval).
  vm_compute in Hrun. injection Hrun as <-.
  vm_compute in Hval. discriminate.
Qed.

(** C8 as stated fails at chunk size 0: the write loop of [dump_streaming]
    stops at its first, empty, read, so the file holds a header and an empty
    compressed stream, and [load_streaming] meets the end of the input where
    the other chunk sizes return the object. *)
Lemma chunk_size_zero_loses_the_payload :
  ~ (forall cw cr cw' cr' : Z,
       option_map fst
         (streaming_roundtrip Sample.pickle Sample.codec Sample.format
            Sample.numbers Sample.default_dump Sample.default_load None None
            true cw cr Sample.fresh)
       = option_map fst
           (streaming_roundtrip Sample.pickle Sample.codec Sample.format
              Sample.numbers Sample.default_dump Sample.default_load None None
              true cw' cr' Sample.fresh)).
Proof.
  intros H. specialize (H 0 1024 1024 1024). vm_compute in H. discriminate.
Qed.


(** ** Round trips that owe nothing to the compressor *)

Lemma bare_format_contract (fmt : FormatTables) :
  length (MAGIC_VERSION fmt) = 5%nat ->
  algorithm_id fmt "none" = 0 -> id_algorithm fmt 0 = Some "none" ->
  format_contract fmt (fun _ => false).
Proof.
  intros Hm Hid Hzero. unfold format_contract.
  repeat (split; [assumption|]). split; discriminate.
Qed.

(** X17 — Uncompressed containers round-trip whatever the compressor is.
    When compression is skipped (a payload below [min_size], or the algorithm
    ["none"]), an object that the serializer round-trips comes back from
    [loads(dumps(o))], and from [dump_streaming] followed by [load_streaming]
    with any positive chunk sizes, with no assumption on [compress_utils]. *)
Theorem uncompressed_roundtrip (pk : PickleService) (cu : CompressService)
    (fmt : FormatTables) (obj : Obj pk) (dop : dump_opts) (lop : load_opts)
    (alg_arg : option string) (lvl_arg : option Z) (strict : bool)
    (cw cr : Z) (p : bytes) (w : world) :
  length (MAGIC_VERSION fmt) = 5%nat ->
  algorithm_id fmt "none" = 0 -> id_algorithm fmt 0 = Some "none" ->
  pickle_dumps pk obj dop = Ok p -> pickle_loads pk p lop = Ok obj ->
  (Z.of_nat (length p) <? min_size (config w))
  || (or_str alg_arg (algorithm (config w)) =? "none")%string = true ->
  output w = [] -> 0 < cw -> 0 < cr ->
  (d <- dumps pk cu fmt obj dop alg_arg lvl_arg ;;
   loads pk cu fmt (PyBytes d) lop strict) w
  = Some (Ok obj, w)
  /\ option_map fst
       (streaming_roundtrip pk cu fmt obj dop lop alg_arg lvl_arg strict cw cr w)
     = Some (Ok obj).
Proof.
  intros Hm Hid Hzero Hp Hl Hskip Hout Hcw Hcr.
  pose proof (bare_format_contract fmt Hm Hid Hzero) as Hfmt.
  assert (Hcont : forall q, container_of cu fmt (fun _ => false) q
                              (encode_header fmt "none" 0 ++ q))
    by (intros q; now left).
  split.
  - unfold bind at 1.
    assert (Hd : dumps pk cu fmt obj dop alg_arg lvl_arg w
                 = Some (Ok (encode_header fmt "none" 0 ++ p), w)).
    { unfold dumps, bind, lift, get_config. now rewrite Hp, Hskip. }
    rewrite Hd.
    rewrite (loads_container pk cu fmt (fun _ => false) p _ lop strict w Hfmt
               (Hcont p)).
    now rewrite Hl.
  - unfold streaming_roundtrip.
    rewrite (dump_streaming_then_read pk cu fmt _ obj dop alg_arg lvl_arg cw _ w
               Hout (dump_streaming_skip pk cu fmt obj dop alg_arg lvl_arg cw p w
                       Hp Hskip)).
    cbn [concat].
    rewrite (split_chunks_concat (S (length p)) cw p) by lia.
    rewrite (load_streaming_container pk cu fmt (fun _ => false) p _ lop strict
               cr _ _ _ Hfmt (Hcont p)) by lia.
    now rewrite Hl.
Qed.

(** ** The further statements on the sample instance *)

Lemma none_algorithm_skips_compression_witness :
  or_str None (algorithm (config Sample.plain)) = "none"
  /\ (Z.of_nat (length (128 :: Sample.numbers)) <? min_size (config Sample.plain))
     = false
  /\ dumps Sample.pickle Sample.codec Sample.format Sample.numbers
       Sample.default_dump None None Sample.plain
     = Some (Ok (encode_header Sample.format "none" 0 ++ 128 :: Sample.numbers),
             Sample.plain).
Proof.
  split; [reflexivity|]. split; [reflexivity|].
  exact (proj1 (none_algorithm_skips_compression Sample.pickle Sample.codec
                  Sample.format Sample.numbers Sample.default_dump None None
                  (128 :: Sample.numbers) Sample.plain eq_refl eq_refl)).
Defined.

Lemma dumps_output_is_a_container_witness :
  is_zpickle_data Sample.format
    (encode_header Sample.format "zstd" 3 ++ Sample.TAG :: 128 :: Sample.numbers)
  = true
  /\ (8 <= length (encode_header Sample.format "zstd" 3
                   ++ Sample.TAG :: 128 :: Sample.numbers)%Z)%nat.
Proof.
  apply (dumps_output_is_a_container Sample.pickle Sample.codec Sample.format
           Sample.numbers Sample.default_dump None None
           (encode_header Sample.format "zstd" 3
            ++ Sample.TAG :: 128 :: Sample.numbers)
           Sample.fresh Sample.fresh);
    reflexivity.
Defined.

Lemma rejected_algorithm_leaves_a_header_witness :
  id_algorithm Sample.format (algorithm_id Sample.format "zlib") = Some "zlib"
  /\ dump Sample.pickle Sample.failing_codec Sample.format Sample.numbers
       Sample.default_dump (Some "zlib") None Sample.fresh
     = Some (Raise (CompressionError "compressor failure"), Sample.fresh)
  /\ dump_streaming Sample.pickle Sample.failing_codec Sample.format
       Sample.numbers Sample.default_dump (Some "zlib") None DEFAULT_CHUNK_SIZE
       Sample.fresh
     = Some (Raise (CompressionError "compressor failure"),
             mkWorld Sample.cfg [] [[90; 80; 75; 76; 1; 3; 3; 0]] []).
Proof.
  split; [reflexivity|].
  apply (rejected_algorithm_leaves_a_header Sample.pickle Sample.failing_codec
           Sample.format Sample.numbers Sample.default_dump (Some "zlib") None
           DEFAULT_CHUNK_SIZE (128 :: Sample.numbers)
           (CompressionError "compressor failure")
           (CompressionError "compressor failure") Sample.fresh);
    solve [reflexivity | discriminate].
Defined.



Lemma load_streaming_feeds_the_decompressor_witness :
  exists w',
    load_streaming Sample.pickle Sample.codec Sample.format Sample.default_load
      true 4
      (mkWorld Sample.cfg
         (Sample.zlib_header ++ Sample.TAG :: 128 :: Sample.numbers) [] [])
    = Some (match stream_decompress Sample.codec "zlib"
                    (split_chunks
                       (S (length (Sample.TAG :: 128 :: Sample.numbers))) 4
                       (Sample.TAG :: 128 :: Sample.numbers)) with
            | Ok p => pickle_loads Sample.pickle p Sample.default_load
            | Raise e => Raise e
            end, w').
Proof.
  apply (load_streaming_feeds_the_decompressor Sample.pickle Sample.codec
           Sample.format Sample.zlib_header (Sample.TAG :: 128 :: Sample.numbers)
           Sample.default_load 1 3 0 "zlib" 4 Sample.cfg [] []);
    solve [reflexivity | discriminate].
Defined.

Lemma loads_on_a_bad_container_witness :
  loads Sample.pickle Sample.codec Sample.format
    (PyBytes (Sample.zlib_header ++ Sample.garbage)) Sample.default_load true
    Sample.fresh
  = Some (Raise (CompressionError "corrupt data"), Sample.fresh).
Proof.
  apply (loads_on_a_bad_container Sample.pickle Sample.codec Sample.format
           (Sample.zlib_header ++ Sample.garbage) Sample.default_load true
           (CompressionError "corrupt data") Sample.fresh eq_refl).
  right. exists 1, "zlib", 3, 0.
  split; [reflexivity|]. split; [discriminate | reflexivity].
Defined.

Lemma refused_header_keeps_the_stream_witness :
  decode_header Sample.format Sample.unknown_header false
  = Raise (ValueError "unknown algorithm id")
  /\ load Sample.pickle Sample.codec Sample.format Sample.default_load false
       (mkWorld Sample.cfg (Sample.unknown_header ++ Sample.garbage) [] [])
     = Some (pickle_loads Sample.pickle (Sample.unknown_header ++ Sample.garbage)
               Sample.default_load,
             mkWorld Sample.cfg [] []
               ([] ++ [RuntimeWarning
                         ("Error processing zpickle data, falling back to regular pickle: "
                          ++ exn_str (ValueError "unknown algorithm id"))%string])).
Proof.
  split; [reflexivity|].
  exact (proj1 (refused_header_keeps_the_stream Sample.pickle Sample.codec
                  Sample.format Sample.unknown_header Sample.garbage
                  Sample.default_load false 4 (ValueError "unknown algorithm id")
                  Sample.cfg [] [] eq_refl eq_refl eq_refl)).
Defined.

Lemma failed_constructor_keeps_the_stream_witness :
  load_streaming Sample.pickle Sample.oneshot_codec Sample.format
    Sample.default_load true 4
    (mkWorld Sample.cfg (Sample.zlib_header ++ Sample.garbage) [] [])
  = Some (Raise (CompressionError "streaming is not available"),
          mkWorld Sample.cfg Sample.garbage [] []).
Proof.
  apply (failed_constructor_keeps_the_stream Sample.pickle Sample.oneshot_codec
           Sample.format Sample.zlib_header Sample.garbage Sample.default_load
           true 4 (CompressionError "streaming is not available") 1 3 0 "zlib"
           Sample.cfg [] []);
    solve [reflexivity | discriminate].
Defined.

Lemma load_reads_to_the_end_witness :
  (dump Sample.pickle Sample.codec Sample.format Sample.numbers
     Sample.default_dump None None ;;;
   dump Sample.pickle Sample.codec Sample.format Sample.tiny
     Sample.default_dump None None ;;;
   seek0 ;;;
   load Sample.pickle Sample.codec Sample.format Sample.default_load true)
    Sample.plain
  = Some (pickle_loads Sample.pickle
            ((128 :: Sample.numbers)
             ++ encode_header Sample.format "none" 0 ++ 128 :: Sample.tiny)
            Sample.default_load,
          mkWorld (config Sample.plain) []
            [encode_header Sample.format "none" 0 ++ 128 :: Sample.numbers;
             encode_header Sample.format "none" 0 ++ 128 :: Sample.tiny]
            (warnings Sample.plain)).
Proof.
  apply (load_reads_to_the_end Sample.pickle Sample.codec Sample.format
           Sample.numbers Sample.tiny Sample.default_dump Sample.default_load
           None None true (128 :: Sample.numbers) (128 :: Sample.tiny)
           Sample.plain);
    reflexivity.
Defined.

Lemma uncompressed_copy_is_chunked_witness :
  exists chunks,
    dump_streaming Sample.pickle Sample.codec Sample.format Sample.numbers
      Sample.default_dump None None 4 Sample.plain
    = Some (Ok tt,
            mkWorld (config Sample.plain) (input Sample.plain)
              (output Sample.plain ++ encode_header Sample.format "none" 0 :: chunks)
              (warnings Sample.plain))
    /\ concat chunks = 128 :: Sample.numbers
    /\ Forall (fun c => c <> [] /\ Z.of_nat (length c) <= 4) chunks.
Proof.
  apply (uncompressed_copy_is_chunked Sample.pickle Sample.codec Sample.format
           Sample.numbers Sample.default_dump None None 4 (128 :: Sample.numbers)
           Sample.plain);
    reflexivity.
Defined.

Lemma chunk_size_zero_copies_nothing_witness :
  dump_streaming Sample.pickle Sample.codec Sample.format Sample.tiny
    Sample.default_dump None None 0 Sample.fresh
  = Some (Ok tt,
          mkWorld (config Sample.fresh) (input Sample.fresh)
            (output Sample.fresh ++ [encode_header Sample.format "none" 0])
            (warnings Sample.fresh))
  /\ load_streaming Sample.pickle Sample.codec Sample.format Sample.default_load
       true 0
       (mkWorld Sample.cfg
          (encode_header Sample.format "none" 0 ++ 128 :: Sample.tiny) [] [])
     = Some (pickle_loads Sample.pickle [] Sample.default_load,
             mkWorld Sample.cfg (128 :: Sample.tiny) [] []).
Proof.
  apply (chunk_size_zero_copies_nothing Sample.pickle Sample.codec Sample.format
           Sample.tiny Sample.default_dump Sample.default_load None None true
           (128 :: Sample.tiny) (128 :: Sample.tiny) Sample.fresh Sample.cfg [] []);
    reflexivity.
Defined.

Lemma forward_only_stream_reads_like_a_buffer_witness :
  fst (NonSeekableStream_read 8 (mkStream [1; 2; 3; 4; 5] 2)) = [3; 4; 5]
  /\ fst (NonSeekableStream_read 8 (mkStream [1; 2; 3; 4; 5] 2))
     = fst (read_bytes 8 (unread (mkStream [1; 2; 3; 4; 5] 2)))
  /\ unread (snd (NonSeekableStream_read 8 (mkStream [1; 2; 3; 4; 5] 2)))
     = snd (read_bytes 8 (unread (mkStream [1; 2; 3; 4; 5] 2)))
  /\ 0 <= _pos (snd (NonSeekableStream_read 8 (mkStream [1; 2; 3; 4; 5] 2)))
  /\ _data (snd (NonSeekableStream_read 8 (mkStream [1; 2; 3; 4; 5] 2)))
     = _data (mkStream [1; 2; 3; 4; 5] 2).
Proof.
  split; [reflexivity|].
  apply (forward_only_stream_reads_like_a_buffer 8 (mkStream [1; 2; 3; 4; 5] 2)).
  - cbn. lia.
  - left. lia.
Defined.

Lemma uncompressed_roundtrip_witness :
  (d <- dumps Sample.pickle Sample.oneshot_codec Sample.format Sample.tiny
          Sample.default_dump (Some "zstd") (Some 9) ;;
   loads Sample.pickle Sample.oneshot_codec Sample.format (PyBytes d)
     Sample.default_load true) Sample.fresh
  = Some (Ok Sample.tiny, Sample.fresh)
  /\ option_map fst
       (streaming_roundtrip Sample.pickle Sample.oneshot_codec Sample.format
          Sample.tiny Sample.default_dump Sample.default_load (Some "zstd")
          (Some 9) true 1 1 Sample.fresh)
     = Some (Ok Sample.tiny).
Proof.
  apply (uncompressed_roundtrip Sample.pickle Sample.oneshot_codec Sample.format
           Sample.tiny Sample.default_dump Sample.default_load (Some "zstd")
           (Some 9) true 1 1 (128 :: Sample.tiny) Sample.fresh);
    reflexivity.
Defined.
